(** * CodecAlignerDataset: a shallow embedding of Aligner/CodecAlignerDataset.py

    The development follows the Python module top-down:
    - [Py]       : exceptions, results, list indexing and slicing as Python has them;
    - [Shuffle]  : [fisher_yates_shuffle] over an explicit random source;
    - [Split]    : the worker partition [key_list[i*n//p : (i+1)*n//p]];
    - [Worker]   : [cache_builder_process], the per-key pipeline of one worker;
    - [Dataset]  : [__init__], [__getitem__], [__len__] over an explicit file store.

    External collaborators (soundfile, torch, the text frontend, the codec, the
    speaker-embedding model) are fields of the record [Externals]; the code of
    this module is translated around them statement by statement. *)

From stdpp Require Import base option list gmap strings pretty.
From Stdlib Require Import ZArith QArith.QArith_base Lia.

Set Default Proof Using "Type".
Local Open Scope nat_scope.

(** ** Python values and control effects *)

Module Py.

(** The exception classes that occur in the module or escape from it. *)
Inductive exn : Type :=
| IndexError
| KeyError
| ValueError
| ZeroDivisionError
| RuntimeError
| TypeError.

#[global] Instance exn_eq_dec : EqDecision exn.
Proof. solve_decision. Defined.

(** A computation either returns a value or raises. *)
Inductive result (A : Type) : Type :=
| Ok (a : A)
| Raise (e : exn).
Arguments Ok {A} a.
Arguments Raise {A} e.

#[global] Instance result_ret : MRet result := λ A a, Ok a.
#[global] Instance result_bind : MBind result := λ A B k r,
  match r with
  | Ok a => k a
  | Raise e => Raise e
  end.

Definition is_ok {A} (r : result A) : bool :=
  match r with Ok _ => true | Raise _ => false end.

(** [lst[i]] for a non-negative index. *)
Definition getitem {A} (lst : list A) (i : nat) : result A :=
  match lst !! i with
  | Some x => Ok x
  | None => Raise IndexError
  end.

(** [lst[i]] for an arbitrary integer index: negative indices count from
    the end, anything outside [-len, len) raises [IndexError]. *)
Definition getitem_int {A} (lst : list A) (i : Z) : result A :=
  if (0 <=? i)%Z then getitem lst (Z.to_nat i)
  else if (0 <=? Z.of_nat (length lst) + i)%Z
       then getitem lst (Z.to_nat (Z.of_nat (length lst) + i))
       else Raise IndexError.

(** [lst[a:b]] for non-negative bounds: both bounds are clamped to the
    length and an empty range gives the empty list. *)
Definition slice {A} (lst : list A) (a b : nat) : list A :=
  take (b - a) (drop a lst).

(** [range(start, 0, -1)] : start, start-1, ..., 1. *)
Fixpoint range_down (start : nat) : list nat :=
  match start with
  | 0 => []
  | S k => start :: range_down k
  end.

End Py.

Import Py.

(** ** The shuffle *)

(** The process-wide random source: a state and [random.randint(a, b)],
    which draws an integer and advances the state. *)
Record RandomSource := {
  rng : Type;
  randint : rng → nat → nat → rng * nat;
}.

(** The library contract of [random.randint]: the draw lies in [a, b]. *)
Definition randint_in_range (R : RandomSource) : Prop :=
  ∀ (g : rng R) (a b : nat), a ≤ b → a ≤ (randint R g a b).2 ≤ b.

Module Shuffle.
Section shuffle.
Context {A : Type} (R : RandomSource).

(** [lst[i], lst[j] = lst[j], lst[i]] : the right-hand side is evaluated
    first ([lst[j]], then [lst[i]]), then [lst[i]] and [lst[j]] are stored
    in that order. *)
Definition swap_items (lst : list A) (i j : nat) : result (list A) :=
  x ← getitem lst j;
  y ← getitem lst i;
  Ok (<[j:=y]> (<[i:=x]> lst)).

(** The loop body over the remaining values of [i]. *)
Fixpoint shuffle_loop (idxs : list nat) (g : rng R) (lst : list A)
  : rng R * result (list A) :=
  match idxs with
  | [] => (g, Ok lst)
  | i :: idxs' =>
      let '(g', j) := randint R g 0 i in
      match swap_items lst i j with
      | Ok lst' => shuffle_loop idxs' g' lst'
      | Raise e => (g', Raise e)
      end
  end.

(** [fisher_yates_shuffle(lst)]; the returned list is the content of the
    argument after the in-place updates. *)
Definition fisher_yates_shuffle (g : rng R) (lst : list A)
  : rng R * result (list A) :=
  shuffle_loop (range_down (length lst - 1)) g lst.

End shuffle.
End Shuffle.

(** A small linear congruential generator, used to run the model. *)
Definition lcg : RandomSource := {|
  rng := nat;
  randint := λ g a b, ((g * 75 + 74) `mod` 257, a + g `mod` (b - a + 1));
|}.

(** ** The worker partition *)

Module Split.
Section split.
Context {A : Type}.

(** The loop of lines 49-51:
    [key_splits.append(key_list[i*len(key_list)//p : (i+1)*len(key_list)//p])]
    for [i in range(p)].  All quantities are non-negative, so [//] is
    [Nat.div]; the division is only evaluated when [range(p)] is
    non-empty, that is when [p] is positive. *)
Definition key_split (key_list : list A) (loading_processes i : nat) : list A :=
  slice key_list (i * length key_list / loading_processes)
                 ((i + 1) * length key_list / loading_processes).

Definition key_splits (key_list : list A) (loading_processes : nat)
  : list (list A) :=
  key_split key_list loading_processes <$> seq 0 loading_processes.

End split.
End Split.

(** ** External collaborators *)

(** Everything the module imports and calls.  The calls the source wraps in
    [try] (reading a sound file, resampling, encoding a transcript) return
    a [result]; the others are the collaborators' documented total
    interfaces, with the tensor post-processing of each call folded in. *)
Record Externals := {
  ndarray : Type;                         (* numpy arrays *)
  tensor : Type;                          (* torch tensors *)
  num : Type;                             (* Python numbers measuring seconds *)
  (** [sf.read(path)] : the samples and the sampling rate. *)
  sf_read : string → result (ndarray * Z);
  np_len : ndarray → Z;                   (* [len(wave)] *)
  (** the value of [a / b] for a non-zero [b], and [x <= y]. *)
  fdiv : Z → Z → num;
  num_le : num → num → bool;
  (** [Resample(orig_freq, 16000)(torch.Tensor(wave, ...))]. *)
  resample : Z → ndarray → result tensor;
  tensor_len : tensor → Z;                (* [len(norm_wave)] *)
  tensor_numpy : tensor → ndarray;        (* [.cpu().detach().numpy()] *)
  ShortTensor : ndarray → tensor;
  Tensor : ndarray → tensor;
  (** [ArticulatoryCombinedTextFrontend(language=lang).string_to_tensor(
       text, handle_missing, input_phonemes).squeeze(0).cpu().numpy()]. *)
  string_to_tensor : string → string → bool → bool → result ndarray;
  text_vectors_to_id_sequence : string → tensor → list Z;
  (** [CodecAudioPreprocessor(input_sr).audio_to_codebook_indexes(audio,
       current_sampling_rate).transpose(0, 1).cpu().numpy()]. *)
  audio_to_codebook_indexes : Z → ndarray → Z → ndarray;
  (** [indexes_to_codec_frames(idx.int().transpose(0, 1)).transpose(0, 1)]. *)
  indexes_to_codec_frames : tensor → tensor;
  (** the speaker encoder: [encode_batch(wavs=wave.unsqueeze(0)).squeeze()]. *)
  encode_batch : tensor → tensor;
}.

(** ** Strings and dictionaries *)

Module Str.

(** [str.isspace] on the code points below 256. *)
Definition is_space (c : Ascii.ascii) : bool :=
  let n := Ascii.nat_of_ascii c in
  ((9 <=? n) && (n <=? 13)) || ((28 <=? n) && (n <=? 32))
  || (n =? 133) || (n =? 160).

Fixpoint lstrip (s : string) : string :=
  match s with
  | EmptyString => EmptyString
  | String c s' => if is_space c then lstrip s' else s
  end.

(** [s.strip()] *)
Definition strip (s : string) : string :=
  String.rev (lstrip (String.rev (lstrip s))).

(** [os.path.join(d, name)] for a relative [name]. *)
Definition ends_with_sep (d : string) : bool :=
  match String.rev d with
  | String c _ => bool_decide (String c "" = "/")
  | EmptyString => false
  end.

Definition path_join (d name : string) : string :=
  if bool_decide (d = "") then name
  else if ends_with_sep d then d +:+ name
  else d +:+ "/" +:+ name.

End Str.

(** A Python [dict] with string keys: the items in insertion order (keys
    are pairwise distinct). *)
Module Dict.
Section dict.
Context {V : Type}.

Definition t := list (string * V).

Definition keys (d : t) : list string := d.*1.

Fixpoint get (d : t) (k : string) : option V :=
  match d with
  | [] => None
  | (k', v) :: d' => if bool_decide (k' = k) then Some v else get d' k
  end.

(** [d[k]] *)
Definition getitem (d : t) (k : string) : result V :=
  match get d k with
  | Some v => Ok v
  | None => Raise KeyError
  end.

End dict.
Arguments t V : clear implicits.
End Dict.

(** ** One worker: [cache_builder_process] *)

Module Worker.
Section worker.
Context (E : Externals).

(** One element of the worker's chunk:
    [[cached_text, cached_speech, norm_wave, path]]. *)
Record sample := Sample {
  cached_text : ndarray E;
  cached_speech : ndarray E;
  norm_wave : ndarray E;
  path : string;
}.

(** [a / b] on integers. *)
Definition truediv (a b : Z) : result (num E) :=
  if (b =? 0)%Z then Raise ZeroDivisionError else Ok (fdiv E a b).

(** [min_len <= dur <= max_len] *)
Definition in_bounds (min_len max_len dur : num E) : bool :=
  num_le E min_len dur && num_le E dur max_len.

Context (path_to_transcript_dict : Dict.t string).
Context (lang : string) (min_len max_len : num E).
Context (phone_input allow_unknown_symbols : bool).

(** Lines 129-155: from the key to the loaded and resampled audio.
    [Ok None] is [continue]. *)
Definition load_and_filter (assumed_sr : Z) (path : string)
  : result (option (ndarray E * Z * tensor E)) :=
  transcript ← Dict.getitem path_to_transcript_dict path;
  if bool_decide (Str.strip transcript = "") then Ok None else
  match sf_read E path with
  | Raise _ => Ok None                               (* bare [except] *)
  | Ok (wave, sr) =>
      if negb (sr =? assumed_sr)%Z then Ok None else
      dur_in_seconds ← truediv (np_len E wave) sr;
      if negb (in_bounds min_len max_len dur_in_seconds) then Ok None else
      match resample E assumed_sr wave with
      | Raise ValueError => Ok None                  (* [except ValueError] *)
      | Raise e => Raise e
      | Ok norm_wave =>
          dur_in_seconds ← truediv (tensor_len E norm_wave) 16000;
          if negb (in_bounds min_len max_len dur_in_seconds) then Ok None
          else Ok (Some (wave, sr, norm_wave))
      end
  end.

(** Lines 159-171: the nested [try] around the text frontend. *)
Definition encode_transcript (transcript : string) : result (option (ndarray E)) :=
  match string_to_tensor E lang transcript false phone_input with
  | Ok cached_text => Ok (Some cached_text)
  | Raise KeyError =>
      match string_to_tensor E lang transcript true phone_input with
      | Ok cached_text =>
          if negb allow_unknown_symbols then Ok None else Ok (Some cached_text)
      | Raise ValueError => Ok None                  (* outer [except ValueError] *)
      | Raise KeyError => Ok None                    (* outer [except KeyError] *)
      | Raise e => Raise e
      end
  | Raise ValueError => Ok None                      (* outer [except ValueError] *)
  | Raise e => Raise e
  end.

(** The body of the [for path in path_list] loop: [Ok (Some s)] appends
    [s] to the chunk, [Ok None] is [continue], [Raise] leaves the worker. *)
Definition process_path (assumed_sr : Z) (path : string) : result (option sample) :=
  loaded ← load_and_filter assumed_sr path;
  match loaded with
  | None => Ok None
  | Some (wave, sr, norm_wave) =>
      transcript ← Dict.getitem path_to_transcript_dict path;
      encoded ← encode_transcript transcript;
      match encoded with
      | None => Ok None
      | Some cached_text =>
          let cached_speech := audio_to_codebook_indexes E assumed_sr wave sr in
          Ok (Some (Sample cached_text cached_speech
                           (tensor_numpy E norm_wave) path))
      end
  end.

Fixpoint process_paths (assumed_sr : Z) (path_list : list string)
    (process_internal_dataset_chunk : list sample) : result (list sample) :=
  match path_list with
  | [] => Ok process_internal_dataset_chunk
  | path :: rest =>
      step ← process_path assumed_sr path;
      process_paths assumed_sr rest
        (match step with
         | Some s => process_internal_dataset_chunk ++ [s]
         | None => process_internal_dataset_chunk
         end)
  end.

(** [cache_builder_process]: the process either finishes, having appended
    its chunk to the shared result pool, or dies with an exception and
    leaves the pool as it found it.  The constructors of lines 122, 125
    and 126 are taken to succeed; [verbose] only selects messages on the
    worker's own output and [device] only places the tensors, so neither
    is a parameter here. *)
Definition cache_builder_process (path_list : list string)
    (result_pool : list (list sample)) : result unit * list (list sample) :=
  match (first ← getitem path_list 0; sf_read E first) with
  | Raise e => (Raise e, result_pool)
  | Ok (_, sr) =>
      let assumed_sr := sr in
      match process_paths assumed_sr path_list [] with
      | Raise e => (Raise e, result_pool)
      | Ok chunk => (Ok (), result_pool ++ [chunk])
      end
  end.

End worker.
Arguments Sample {E}.
Arguments cached_text {E}.
Arguments cached_speech {E}.
Arguments norm_wave {E}.
Arguments path {E}.
End Worker.

(** ** The dataset object *)

Module Dataset.
Section dataset.
Context (E : Externals) (R : RandomSource).

(** What [torch.save] writes: the tuple
    [(datapoints, None, speaker_embeddings, filepaths)]. *)
Record cache_blob := Blob {
  blob_datapoints : list (tensor E * tensor E);
  blob_reserved : unit;
  blob_speaker_embeddings : list (tensor E);
  blob_filepaths : list string;
}.

(** The two kinds of files the module writes: the note with [str(key_list)]
    (kept as the key list it renders) and the pickled cache tuple. *)
Inductive file :=
| KeyListNote (key_list : list string)
| TorchBlob (blob : cache_blob).

(** What the constructing process does that can be observed from outside. *)
Inductive event :=
| Print (line : string)
| FileWritten (path : string)
| Start (path_list : list string).

(** The surroundings of the constructing process: the files by path, the
    state of the global random source, the order in which started worker
    processes reach the end of their run, and the events so far. *)
Record world := World {
  fs : gmap string file;
  random : rng R;
  scheduler : nat → list nat;
  trace : list event;
}.

Definition emit (ev : list event) (w : world) : world :=
  World (fs w) (random w) (scheduler w) (trace w ++ ev).
Definition print (line : string) : world → world := emit [Print line].
Definition write_file (p : string) (f : file) (w : world) : world :=
  emit [FileWritten p] (World (<[p:=f]> (fs w)) (random w) (scheduler w) (trace w)).
Definition set_random (g : rng R) (w : world) : world :=
  World (fs w) g (scheduler w) (trace w).

(** [os.path.exists(p)] *)
Definition path_exists (w : world) (p : string) : bool :=
  bool_decide (is_Some (fs w !! p)).

(** [torch.save(obj, p)] and [torch.load(p, map_location='cpu')] *)
Definition torch_save (blob : cache_blob) (p : string) : world → world :=
  write_file p (TorchBlob blob).
Definition torch_load (w : world) (p : string) : result cache_blob :=
  match fs w !! p with
  | Some (TorchBlob blob) => Ok blob
  | _ => Raise RuntimeError
  end.

(** The first argument of the constructor: the dictionary, or a function
    that produces it. *)
Inductive transcripts :=
| GivenDict (d : Dict.t string)
| Factory (f : unit → Dict.t string).

Record args := Args {
  path_to_transcript_dict : transcripts;
  cache_dir : string;
  lang : string;
  loading_processes : nat;
  min_len_in_seconds : num E;
  max_len_in_seconds : num E;
  rebuild_cache : bool;
  phone_input : bool;
  allow_unknown_symbols : bool;
}.

(** The attributes of a constructed [CodecAlignerDataset]: [tf] is the
    frontend's language, [ap] the [input_sr] of the codec preprocessor
    once it exists. *)
Record dataset := Self {
  datapoints : list (tensor E * tensor E);
  speaker_embeddings : list (tensor E);
  tf : string;
  ap : option Z;
}.

Definition cache_file (a : args) : string :=
  Str.path_join (cache_dir a) "aligner_train_cache.pt".
Definition files_used_file (a : args) : string :=
  Str.path_join (cache_dir a) "files_used.txt".

(** Lines 52-66: every process is started, then all are joined; each one
    that finishes appends its chunk to the shared pool when it is done,
    in the order the scheduler decides. *)
Definition run_processes (a : args) (d : Dict.t string)
    (key_splits : list (list string)) (order : list nat)
  : list (list (Worker.sample E)) :=
  foldl (λ result_pool i,
           match key_splits !! i with
           | Some key_split =>
               (Worker.cache_builder_process E d (lang a)
                  (min_len_in_seconds a) (max_len_in_seconds a)
                  (phone_input a) (allow_unknown_symbols a)
                  key_split result_pool).2
           | None => result_pool
           end) [] order.

(** Lines 108-110, common to both branches. *)
Definition finish (a : args) (w : world)
    (dps : list (tensor E * tensor E)) (embs : list (tensor E))
  : world * result dataset :=
  (print ("Prepared an Aligner dataset with " +:+ pretty (length dps)
          +:+ " datapoints in " +:+ cache_dir a +:+ ".") w,
   Ok (Self dps embs (lang a) None)).

(** Lines 68-95: pooling, tensor conversion and the embedding pass. *)
Definition pool (result_pool : list (list (Worker.sample E)))
  : list (Worker.sample E) := concat result_pool.

Definition assemble (pooled : list (Worker.sample E)) : cache_blob :=
  let text_tensors := (λ x, ShortTensor E (Worker.cached_text x)) <$> pooled in
  let speech_tensors := (λ x, ShortTensor E (Worker.cached_speech x)) <$> pooled in
  let norm_waves := (λ x, Tensor E (Worker.norm_wave x)) <$> pooled in
  let filepaths := Worker.path <$> pooled in
  let datapoints := zip text_tensors speech_tensors in
  let speaker_embeddings := encode_batch E <$> norm_waves in
  Blob datapoints () speaker_embeddings filepaths.

(** Lines 35-36: the dictionary itself, or the result of calling the
    function that was passed in its place. *)
Definition transcripts_of (a : args) : Dict.t string :=
  match path_to_transcript_dict a with
  | GivenDict d => d
  | Factory f => f ()
  end.

(** Lines 34-72: the key list is written down, shuffled and split, the
    workers run, and their chunks are unpacked into one joint list. *)
Definition gather (a : args) (w : world)
  : world * result (list (Worker.sample E)) :=
  let d := transcripts_of a in
  let key_list := Dict.keys d in
  let w := write_file (files_used_file a) (KeyListNote key_list) w in
  let '(g, shuffled) := Shuffle.fisher_yates_shuffle R (random w) key_list in
  let w := set_random g w in
  match shuffled with
  | Raise e => (w, Raise e)
  | Ok key_list =>
      let w := print "... building dataset cache ..." w in
      let key_splits := Split.key_splits key_list (loading_processes a) in
      let w := emit (Start <$> key_splits) w in
      let result_pool :=
        run_processes a d key_splits (scheduler w (length key_splits)) in
      let w := print "pooling results..." w in
      (w, Ok (pool result_pool))
  end.

(** Lines 34-101: the construction branch. *)
Definition build (a : args) (w : world) : world * result dataset :=
  match gather a w with
  | (w, Raise e) => (w, Raise e)
  | (w, Ok pooled) =>
      let w := print "converting text to tensors..." w in
      let w := print "converting speech to tensors..." w in
      let w := print "converting waves to tensors..." w in
      let w := print "unpacking file list..." w in
      let blob := assemble pooled in
      let w := print "done!" w in
      if bool_decide (length (blob_datapoints blob) = 0)
      then (w, Raise RuntimeError)
      else
        let w := torch_save blob (cache_file a) w in
        finish a w (blob_datapoints blob) (blob_speaker_embeddings blob)
  end.

(** Lines 104-106: the load branch. *)
Definition load (a : args) (w : world) : world * result dataset :=
  match torch_load w (cache_file a) with
  | Raise e => (w, Raise e)
  | Ok blob => finish a w (blob_datapoints blob) (blob_speaker_embeddings blob)
  end.

(** [CodecAlignerDataset.__init__].  [os.makedirs(cache_dir, exist_ok=True)]
    creates directories only, and the store holds files only, so it leaves
    the world as it is. *)
Definition init (a : args) (w : world) : world * result dataset :=
  if negb (path_exists w (cache_file a)) || rebuild_cache a
  then build a w
  else load a w.

(** [__getitem__]: the updated object (the codec preprocessor is created
    on first use) and the returned tuple
    [(tokens, token_len, speech, speech_len, speaker_embedding)]. *)
Definition getitem (self : dataset) (index : Z)
  : dataset * result (list Z * nat * tensor E * Z * tensor E) :=
  let self := match ap self with
              | None => Self (datapoints self) (speaker_embeddings self)
                             (tf self) (Some (-1)%Z)
              | Some _ => self
              end in
  (self,
   datapoint ← getitem_int (datapoints self) index;
   let text_vector := datapoint.1 in
   let tokens := text_vectors_to_id_sequence E (tf self) text_vector in
   let token_len := length tokens in
   datapoint ← getitem_int (datapoints self) index;
   let speech_indexes := datapoint.2 in
   let speech_len := tensor_len E speech_indexes in
   let speech := indexes_to_codec_frames E speech_indexes in
   speaker_embedding ← getitem_int (speaker_embeddings self) index;
   Ok (tokens, token_len, speech, speech_len, speaker_embedding)).

(** [__len__] *)
Definition len (self : dataset) : nat := length (datapoints self).

End dataset.
End Dataset.

(** ** A small concrete world, used to run the model *)

Module Demo.

(** Arrays and tensors: an audio clip (its number of frames and a label)
    or a row of integers. *)
Inductive arr :=
| Audio (frames : Z) (tag : string)
| Ints (xs : list Z).

Definition frames_of (x : arr) : Z :=
  match x with
  | Audio n _ => n
  | Ints xs => Z.of_nat (length xs)
  end.

(** Five sound files at 16 kHz (3 s, 20 s, 2 s, 15 s, 4 s), one at
    44.1 kHz; any other path cannot be read. *)
Definition read (p : string) : result (arr * Z) :=
  if bool_decide (p = "a.wav") then Ok (Audio 48000 "a", 16000%Z)
  else if bool_decide (p = "b.wav") then Ok (Audio 320000 "b", 16000%Z)
  else if bool_decide (p = "c.wav") then Ok (Audio 32000 "c", 16000%Z)
  else if bool_decide (p = "d.wav") then Ok (Audio 44100 "d", 44100%Z)
  else if bool_decide (p = "e.wav") then Ok (Audio 240000 "e", 16000%Z)
  else if bool_decide (p = "f.wav") then Ok (Audio 64000 "f", 16000%Z)
  else Raise RuntimeError.

(** A resampler whose output is one frame longer than the exact ratio. *)
Definition resamp (orig_freq : Z) (x : arr) : result arr :=
  match x with
  | Audio n t => Ok (Audio (n * 16000 / orig_freq + 1) t)
  | Ints _ => Raise ValueError
  end.

(** A frontend that knows four transcripts. *)
Definition encode (lang text : string) (handle_missing input_phonemes : bool)
  : result arr :=
  if bool_decide (text = "hello") then Ok (Ints [1; 2; 3]%Z)
  else if bool_decide (text = "h#llo")
       then if handle_missing then Ok (Ints [1; 0; 3]%Z) else Raise KeyError
  else if bool_decide (text = "ni3hao") then Raise ValueError
  else Raise TypeError.

Definition externals : Externals := {|
  ndarray := arr;
  tensor := arr;
  num := Q;
  sf_read := read;
  np_len := frames_of;
  fdiv := λ a b, Qmake a (Z.to_pos b);
  num_le := Qle_bool;
  resample := resamp;
  tensor_len := frames_of;
  tensor_numpy := λ x, x;
  ShortTensor := λ x, x;
  Tensor := λ x, x;
  string_to_tensor := encode;
  text_vectors_to_id_sequence := λ _ x, match x with Ints xs => xs | _ => [] end;
  audio_to_codebook_indexes := λ _ x sr, Ints [frames_of x / 320; sr]%Z;
  indexes_to_codec_frames := λ x, x;
  encode_batch := λ x, Ints [frames_of x]%Z;
|}.

Definition transcripts : Dict.t string :=
  [("a.wav", "hello"); ("b.wav", "hello"); ("c.wav", "h#llo");
   ("e.wav", "hello"); ("f.wav", " "); ("g.wav", "hello");
   ("h.wav", "hello"); ("i.wav", "ni3hao")].

Definition args_for (d : Dict.t string) (rebuild : bool) (allow : bool) (p : nat)
  : Dataset.args externals :=
  Dataset.Args externals (Dataset.GivenDict d) "cache" "eng" p
               (1 # 1)%Q (15 # 1)%Q rebuild false allow.

Definition args : bool → bool → nat → Dataset.args externals :=
  args_for transcripts.

(** No file yet, seed 7, workers finish in the order they were started. *)
Definition world0 : Dataset.world externals lcg :=
  Dataset.World externals lcg ∅ 7 (λ n, seq 0 n) [].

End Demo.

(** ** Predicates of the statements *)

(** [min_len <= dur <= max_len] holds. *)
Definition within (E : Externals) (min_len max_len dur : num E) : Prop :=
  num_le E min_len dur = true ∧ num_le E dur max_len = true.

(** A sample of the chunk together with the source it was computed from:
    the file at [path s] was read at the assumed rate, both durations are
    within bounds, and the three arrays come from that one file and its
    transcript. *)
Definition derived_from (E : Externals) (d : Dict.t string) (lang : string)
    (min_len max_len : num E) (phone_input allow_unknown_symbols : bool)
    (assumed_sr : Z) (s : Worker.sample E) : Prop :=
  ∃ transcript wave nw,
    Dict.get d (Worker.path s) = Some transcript
    ∧ sf_read E (Worker.path s) = Ok (wave, assumed_sr)
    ∧ within E min_len max_len (fdiv E (np_len E wave) assumed_sr)
    ∧ resample E assumed_sr wave = Ok nw
    ∧ within E min_len max_len (fdiv E (tensor_len E nw) 16000)
    ∧ Worker.encode_transcript E lang phone_input allow_unknown_symbols transcript
      = Ok (Some (Worker.cached_text s))
    ∧ Worker.cached_speech s
      = audio_to_codebook_indexes E assumed_sr wave assumed_sr
    ∧ Worker.norm_wave s = tensor_numpy E nw.

(** An event that is not the writing of a file. *)
Definition not_a_write (ev : Dataset.event) : Prop :=
  match ev with Dataset.FileWritten _ => False | _ => True end.

(** ** Properties of the random source used in the examples *)

Lemma lcg_in_range : randint_in_range lcg.
Proof.
  intros g a b Hab. simpl.
  pose proof (Nat.mod_upper_bound g (b - a + 1)). lia.
Qed.

(** ** Properties of the shuffle *)

Section shuffle_facts.
Context {A : Type} (R : RandomSource).
Implicit Types lst : list A.

Lemma swap_items_ok lst i j :
  i < length lst → j < length lst →
  ∃ lst', Shuffle.swap_items lst i j = Ok lst' ∧ lst' ≡ₚ lst
          ∧ length lst' = length lst.
Proof.
  intros Hi Hj. unfold Shuffle.swap_items, getitem.
  destruct (lookup_lt_is_Some_2 lst j Hj) as [x Hx].
  destruct (lookup_lt_is_Some_2 lst i Hi) as [y Hy].
  rewrite Hx, Hy. simpl. eexists; split; [reflexivity|].
  split; [|by rewrite !length_insert].
  apply Permutation_inj. split; [by rewrite !length_insert|].
  exists (λ k, if decide (k = i) then j else if decide (k = j) then i else k).
  split.
  - intros a b. repeat case_decide; intros; subst; congruence.
  - intros k. rewrite !list_lookup_insert, !length_insert.
    repeat (case_decide; subst; simpl in *; try lia; try congruence);
      destruct_and?; try lia; try congruence.
Qed.

Lemma shuffle_loop_perm (HR : randint_in_range R) k g lst :
  k < length lst ∨ k = 0 →
  ∃ g' lst', Shuffle.shuffle_loop R (range_down k) g lst = (g', Ok lst')
             ∧ lst' ≡ₚ lst.
Proof.
  revert g lst. induction k as [|k IH]; intros g lst Hk; simpl.
  - by exists g, lst.
  - destruct (randint R g 0 (S k)) as [g' j] eqn:Hj.
    pose proof (HR g 0 (S k) ltac:(lia)) as Hr. rewrite Hj in Hr. simpl in Hr.
    destruct (swap_items_ok lst (S k) j) as (lst1 & -> & Hp & Hlen); [lia..|].
    destruct (IH g' lst1) as (g'' & lst' & -> & Hp'); [lia|].
    exists g'', lst'. split; [done|]. by rewrite Hp'.
Qed.

End shuffle_facts.

(** C1. Given a random source whose draws respect the bounds asked for,
    [fisher_yates_shuffle] terminates without raising and leaves the list a
    permutation of its original contents; a list of length 0 or 1 is left
    exactly as it was (and no random number is drawn). *)
Theorem fisher_yates_shuffle_permutation
    {A : Type} (R : RandomSource) (HR : randint_in_range R)
    (g : rng R) (lst : list A) :
  (∃ g' lst', Shuffle.fisher_yates_shuffle R g lst = (g', Ok lst')
              ∧ lst' ≡ₚ lst)
  ∧ (length lst ≤ 1 → Shuffle.fisher_yates_shuffle R g lst = (g, Ok lst)).
Proof.
  split.
  - apply shuffle_loop_perm; [done|]. lia.
  - intros Hlen. unfold Shuffle.fisher_yates_shuffle.
    by replace (length lst - 1) with 0 by lia.
Qed.

Lemma fisher_yates_shuffle_permutation_witness :
  (∃ g' lst', Shuffle.fisher_yates_shuffle lcg 7 [10; 20; 30; 40] = (g', Ok lst')
              ∧ lst' ≡ₚ [10; 20; 30; 40])
  ∧ Shuffle.fisher_yates_shuffle lcg 7 [5] = (7, Ok [5]).
Proof.
  split.
  - exact (proj1 (fisher_yates_shuffle_permutation lcg lcg_in_range 7 [10; 20; 30; 40])).
  - apply (fisher_yates_shuffle_permutation lcg lcg_in_range 7 [5]). simpl. lia.
Defined.

(** ** Properties of the worker partition *)

Section split_facts.
Context {A : Type}.
Implicit Types key_list : list A.

Lemma slice_from_0 key_list b : slice key_list 0 b = take b key_list.
Proof. unfold slice. by rewrite Nat.sub_0_r, drop_0. Qed.

Lemma take_slice key_list a b :
  a ≤ b → take a key_list ++ slice key_list a b = take b key_list.
Proof.
  intros Hab. unfold slice. rewrite take_take_drop. f_equal. lia.
Qed.

Lemma bound_mono n p i : i * n / p ≤ (i + 1) * n / p.
Proof. apply Nat.Div0.div_le_mono. lia. Qed.

Lemma bound_le_len n p i : 0 < p → i ≤ p → i * n / p ≤ n.
Proof.
  intros Hp Hi. transitivity (p * n / p).
  - apply Nat.Div0.div_le_mono. nia.
  - rewrite Nat.mul_comm, Nat.div_mul by lia. done.
Qed.

Lemma key_split_length key_list p i :
  0 < p → i < p →
  length (Split.key_split key_list p i)
  = (i + 1) * length key_list / p - i * length key_list / p.
Proof.
  intros Hp Hi. unfold Split.key_split, slice.
  rewrite length_take, length_drop.
  pose proof (bound_le_len (length key_list) p (i + 1) Hp ltac:(lia)).
  lia.
Qed.

(** The first [k] slices together are the prefix up to the [k]-th bound. *)
Lemma concat_key_splits_prefix key_list p k :
  concat (Split.key_split key_list p <$> seq 0 k)
  = take (k * length key_list / p) key_list.
Proof.
  induction k as [|k IH].
  - simpl. rewrite Nat.Div0.div_0_l. done.
  - rewrite seq_S, fmap_app, concat_app, IH.
    replace (concat (Split.key_split key_list p <$> [0 + k]))
      with (Split.key_split key_list p k) by (cbn; by rewrite app_nil_r).
    replace (S k) with (k + 1) by lia.
    apply take_slice, bound_mono.
Qed.

(** Consecutive bounds [i*n//p] differ by [n//p] or [n//p + 1]. *)
Lemma bound_step n p i :
  0 < p →
  n / p ≤ (i + 1) * n / p - i * n / p ≤ n / p + 1.
Proof.
  intros Hp.
  pose proof (Nat.div_mod_eq n p) as Hn.
  pose proof (Nat.mod_upper_bound n p ltac:(lia)) as Hr.
  set (q := n / p) in *. set (r := n `mod` p) in *.
  assert (Hi : ∀ j, j * n / p = j * q + j * r / p).
  { intros j. replace (j * n) with (j * r + (j * q) * p) by nia.
    rewrite Nat.div_add by lia. lia. }
  rewrite !Hi.
  assert (Hlo : i * r / p ≤ (i + 1) * r / p)
    by (apply Nat.Div0.div_le_mono; lia).
  assert (Hhi : (i + 1) * r / p ≤ i * r / p + 1).
  { replace (i * r / p + 1) with ((i * r + 1 * p) / p)
      by (rewrite Nat.div_add by lia; lia).
    apply Nat.Div0.div_le_mono. nia. }
  lia.
Qed.

End split_facts.

(** C2. For a key list of length [n] and [p ≥ 1] workers, the [p] slices
    [key_list[i*n//p : (i+1)*n//p]] are consecutive segments of the list:
    the first [k] of them concatenate to the prefix that ends where slice
    [k] starts, all of them concatenate to the list itself, and any two
    slice sizes differ by at most one. *)
Theorem key_splits_partition {A : Type} (key_list : list A) (p : nat) :
  1 ≤ p →
  length (Split.key_splits key_list p) = p
  ∧ concat (Split.key_splits key_list p) = key_list
  ∧ (∀ k, k < p →
       Split.key_splits key_list p !! k
       = Some (take ((k + 1) * length key_list / p - k * length key_list / p)
                    (drop (length (concat (take k (Split.key_splits key_list p))))
                          key_list)))
  ∧ (∀ i j si sj,
       Split.key_splits key_list p !! i = Some si →
       Split.key_splits key_list p !! j = Some sj →
       length si ≤ length sj + 1).
Proof.
  intros Hp. unfold Split.key_splits. repeat split.
  - by rewrite length_fmap, length_seq.
  - rewrite concat_key_splits_prefix, Nat.mul_comm, Nat.div_mul by lia.
    by rewrite take_ge.
  - intros k Hk. rewrite list_lookup_fmap, lookup_seq_lt by done. simpl.
    rewrite <- fmap_take, take_seq, Nat.min_l by lia.
    rewrite concat_key_splits_prefix, length_take.
    pose proof (bound_le_len (length key_list) p k ltac:(lia) ltac:(lia)).
    rewrite Nat.min_l by done. done.
  - intros i j si sj Hi Hj.
    apply list_lookup_fmap_Some in Hi as (i' & -> & Hi).
    apply list_lookup_fmap_Some in Hj as (j' & -> & Hj).
    apply lookup_seq in Hi as [-> Hi]. apply lookup_seq in Hj as [-> Hj].
    simpl. rewrite !key_split_length by lia.
    pose proof (bound_step (length key_list) p i ltac:(lia)).
    pose proof (bound_step (length key_list) p j ltac:(lia)).
    lia.
Qed.

Lemma key_splits_partition_witness :
  Split.key_splits [1; 2; 3; 4; 5; 6; 7] 3 = [[1; 2]; [3; 4]; [5; 6; 7]]
  ∧ concat (Split.key_splits [1; 2; 3; 4; 5; 6; 7] 3) = [1; 2; 3; 4; 5; 6; 7].
Proof.
  split; [reflexivity|].
  apply (key_splits_partition [1; 2; 3; 4; 5; 6; 7] 3). lia.
Defined.

(** ** Properties of one worker *)

Lemma bind_Ok {A B} (r : result A) (k : A → result B) (b : B) :
  r ≫= k = Ok b ↔ ∃ a, r = Ok a ∧ k a = Ok b.
Proof.
  destruct r as [a|e]; simpl; split.
  - intros H. by exists a.
  - by intros (a' & [= ->] & H).
  - intros H. discriminate H.
  - by intros (a' & [=] & _).
Qed.

Lemma dict_getitem_Ok {V} (d : Dict.t V) k v :
  Dict.getitem d k = Ok v ↔ Dict.get d k = Some v.
Proof. unfold Dict.getitem. destruct (Dict.get d k); naive_solver. Qed.

Section worker_facts.
Context (E : Externals).
Context (d : Dict.t string) (lang : string) (min_len max_len : num E).
Context (phone_input allow_unknown_symbols : bool).

Local Abbreviation within := (within E min_len max_len).
Local Abbreviation derived_from :=
  (derived_from E d lang min_len max_len phone_input allow_unknown_symbols).

Lemma in_bounds_within dur :
  Worker.in_bounds E min_len max_len dur = true ↔ within dur.
Proof. unfold Worker.in_bounds, within. apply andb_true_iff. Qed.

Local Abbreviation load_and_filter :=
  (Worker.load_and_filter E d min_len max_len).
Local Abbreviation encode_transcript :=
  (Worker.encode_transcript E lang phone_input allow_unknown_symbols).
Local Abbreviation process_path :=
  (Worker.process_path E d lang min_len max_len phone_input allow_unknown_symbols).
Local Abbreviation process_paths :=
  (Worker.process_paths E d lang min_len max_len phone_input allow_unknown_symbols).
Local Abbreviation cache_builder_process :=
  (Worker.cache_builder_process E d lang min_len max_len phone_input
                                allow_unknown_symbols).

(** What is known of a key that passed the audio stages. *)
Lemma load_and_filter_Some assumed_sr p wave sr nw :
  load_and_filter assumed_sr p = Ok (Some (wave, sr, nw)) →
  sr = assumed_sr ∧ sr ≠ 0%Z
  ∧ (∃ transcript, Dict.get d p = Some transcript ∧ Str.strip transcript ≠ "")
  ∧ sf_read E p = Ok (wave, sr)
  ∧ within (fdiv E (np_len E wave) sr)
  ∧ resample E assumed_sr wave = Ok nw
  ∧ within (fdiv E (tensor_len E nw) 16000).
Proof.
  unfold Worker.load_and_filter. intros H.
  apply bind_Ok in H as (transcript & Ht%dict_getitem_Ok & H).
  case_bool_decide as Hblank; [discriminate H|].
  destruct (sf_read E p) as [[wave' sr']|e] eqn:Hread; [|discriminate H].
  destruct (sr' =? assumed_sr)%Z eqn:Hsr; simpl in H; [|discriminate H].
  apply Z.eqb_eq in Hsr. subst sr'.
  unfold Worker.truediv in H.
  destruct (assumed_sr =? 0)%Z eqn:Hz; [discriminate H|]. simpl in H.
  apply Z.eqb_neq in Hz.
  destruct (Worker.in_bounds E min_len max_len
              (fdiv E (np_len E wave') assumed_sr)) eqn:Hb1;
    simpl in H; [|discriminate H].
  destruct (resample E assumed_sr wave') as [nw'|e] eqn:Hres; [|by destruct e].
  simpl in H.
  destruct (Worker.in_bounds E min_len max_len
              (fdiv E (tensor_len E nw') 16000)) eqn:Hb2;
    simpl in H; [|discriminate H].
  injection H as -> -> ->.
  apply in_bounds_within in Hb1, Hb2.
  split_and!; try done. by exists transcript.
Qed.

Lemma process_path_Some assumed_sr p s :
  process_path assumed_sr p = Ok (Some s) →
  Worker.path s = p ∧ derived_from assumed_sr s.
Proof.
  unfold Worker.process_path. intros H.
  apply bind_Ok in H as ([[[wave sr] nw]|] & Hload & H); [|discriminate H].
  apply load_and_filter_Some in Hload
    as (-> & _ & (t & Ht & _) & Hread & Hb1 & Hres & Hb2).
  apply bind_Ok in H as (transcript & Ht'%dict_getitem_Ok & H).
  apply bind_Ok in H as ([text|] & Henc & H); [|discriminate H].
  injection H as <-. simpl. split; [done|].
  exists transcript, wave, nw. simpl. split_and!; done.
Qed.

Lemma process_paths_elem assumed_sr path_list acc chunk s :
  process_paths assumed_sr path_list acc = Ok chunk →
  s ∈ chunk →
  s ∈ acc ∨ ∃ p, p ∈ path_list ∧ process_path assumed_sr p = Ok (Some s).
Proof.
  revert acc. induction path_list as [|p rest IH]; intros acc H Hs; simpl in H.
  - injection H as <-. by left.
  - apply bind_Ok in H as (step & Hstep & H).
    destruct (IH _ H Hs) as [Hacc|(q & Hq & Hkeep)].
    + destruct step as [s'|]; [|by left].
      apply elem_of_app in Hacc as [?|Hs'%list_elem_of_singleton]; [by left|].
      subst s'. right. exists p. split; [left|done].
    + right. exists q. split; [by right|done].
Qed.

(** The pool after a worker ran is the pool before, or the pool before
    with one more chunk whose elements the loop body produced. *)
Lemma cache_builder_process_pool path_list result_pool :
  (cache_builder_process path_list result_pool).2 = result_pool
  ∨ ∃ assumed_sr chunk,
      (cache_builder_process path_list result_pool).2 = result_pool ++ [chunk]
      ∧ process_paths assumed_sr path_list [] = Ok chunk.
Proof.
  unfold Worker.cache_builder_process.
  destruct (getitem path_list 0 ≫= _) as [[? sr]|e]; [|by left].
  destruct (process_paths sr path_list []) as [chunk|e] eqn:Hc; [|by left].
  right. by exists sr, chunk.
Qed.

Lemma cache_builder_process_elem path_list result_pool s :
  s ∈ concat (cache_builder_process path_list result_pool).2 →
  s ∈ concat result_pool
  ∨ ∃ assumed_sr p, p ∈ path_list ∧ process_path assumed_sr p = Ok (Some s).
Proof.
  destruct (cache_builder_process_pool path_list result_pool)
    as [->|(sr & chunk & -> & Hc)]; [by left|].
  rewrite concat_app. simpl. rewrite app_nil_r.
  intros [?|Hs]%elem_of_app; [by left|]. right.
  destruct (process_paths_elem _ _ _ _ _ Hc Hs) as [Hnil|(p & ? & ?)].
  - by apply elem_of_nil in Hnil.
  - by exists sr, p.
Qed.

Lemma cache_builder_process_cons first rest result_pool :
  cache_builder_process (first :: rest) result_pool
  = match sf_read E first with
    | Raise e => (Raise e, result_pool)
    | Ok (_, sr) =>
        match process_paths sr (first :: rest) [] with
        | Raise e => (Raise e, result_pool)
        | Ok chunk => (Ok (), result_pool ++ [chunk])
        end
    end.
Proof. reflexivity. Qed.

(** A key whose file cannot be read leaves no mark on the chunk. *)
Lemma process_path_unreadable assumed_sr p e :
  is_Some (Dict.get d p) → sf_read E p = Raise e →
  process_path assumed_sr p = Ok None.
Proof.
  intros [t Ht] Hread. unfold Worker.process_path, Worker.load_and_filter.
  unfold Dict.getitem. rewrite Ht. simpl.
  case_bool_decide; [done|]. by rewrite Hread.
Qed.

Lemma process_paths_skip assumed_sr l1 p l2 acc :
  process_path assumed_sr p = Ok None →
  process_paths assumed_sr (l1 ++ p :: l2) acc
  = process_paths assumed_sr (l1 ++ l2) acc.
Proof.
  intros Hp. revert acc. induction l1 as [|q l1 IH]; intros acc; simpl.
  - by rewrite Hp.
  - destruct (process_path assumed_sr q) as [step|e]; simpl; [apply IH|done].
Qed.

(** A key read with a non-zero rate whose duration is out of bounds, before
    or after resampling, is passed over. *)
Lemma process_path_out_of_bounds assumed_sr p wave sr :
  is_Some (Dict.get d p) → sf_read E p = Ok (wave, sr) → sr ≠ 0%Z →
  ¬ within (fdiv E (np_len E wave) sr)
  ∨ (∃ nw, resample E assumed_sr wave = Ok nw
           ∧ ¬ within (fdiv E (tensor_len E nw) 16000)) →
  process_path assumed_sr p = Ok None.
Proof.
  intros [t Ht] Hread Hsr Hout.
  unfold Worker.process_path, Worker.load_and_filter, Dict.getitem.
  rewrite Ht. simpl. case_bool_decide; [done|]. rewrite Hread.
  destruct (sr =? assumed_sr)%Z; simpl; [|done].
  unfold Worker.truediv. apply Z.eqb_neq in Hsr. rewrite Hsr. simpl.
  destruct (Worker.in_bounds E min_len max_len (fdiv E (np_len E wave) sr))
    eqn:Hb1; simpl; [|done].
  destruct Hout as [Hout|(nw & Hres & Hout)].
  - by apply in_bounds_within in Hb1.
  - rewrite Hres. simpl.
    destruct (Worker.in_bounds E min_len max_len (fdiv E (tensor_len E nw) 16000))
      eqn:Hb2; simpl; [|done].
    by apply in_bounds_within in Hb2.
Qed.

(** The text stage of a key that passed the audio stages. *)
Lemma process_path_encode assumed_sr p wave sr nw transcript :
  load_and_filter assumed_sr p = Ok (Some (wave, sr, nw)) →
  Dict.get d p = Some transcript →
  process_path assumed_sr p
  = (encoded ← encode_transcript transcript;
     match encoded with
     | None => Ok None
     | Some cached_text =>
         Ok (Some (Worker.Sample cached_text
                     (audio_to_codebook_indexes E assumed_sr wave sr)
                     (tensor_numpy E nw) p))
     end).
Proof.
  intros Hload Ht. unfold Worker.process_path, Dict.getitem.
  rewrite Hload, Ht. done.
Qed.

End worker_facts.

(** ** Properties of the worker pool *)

Section pool_facts.
Context (E : Externals) (a : Dataset.args E) (d : Dict.t string).

Local Abbreviation derived :=
  (derived_from E d (Dataset.lang E a) (Dataset.min_len_in_seconds E a)
     (Dataset.max_len_in_seconds E a) (Dataset.phone_input E a)
     (Dataset.allow_unknown_symbols E a)).

(** Whatever the splits and the order of completion, every element of the
    pool was produced by some worker from the key it carries. *)
Lemma run_processes_derived key_splits order s :
  s ∈ Dataset.pool E (Dataset.run_processes E a d key_splits order) →
  ∃ assumed_sr, derived assumed_sr s.
Proof.
  unfold Dataset.pool, Dataset.run_processes.
  assert (Hinit : ∀ s', s' ∈ concat ([] : list (list (Worker.sample E))) →
                        ∃ assumed_sr, derived assumed_sr s')
    by (intros s' Hs'; by apply elem_of_nil in Hs').
  revert Hinit. generalize ([] : list (list (Worker.sample E))) as result_pool.
  induction order as [|i order IH]; intros result_pool Hpool; simpl.
  - apply Hpool.
  - apply IH. destruct (key_splits !! i) as [key_split|]; [|done].
    intros s' [Hs'|(sr & p & _ & Hs')]%cache_builder_process_elem.
    + by apply Hpool.
    + exists sr. by apply process_path_Some in Hs' as [_ ?].
Qed.

End pool_facts.

(** C3. A sample enters a worker's accumulator only if its file was read
    and resampled and [min_len <= duration <= max_len] holds both for
    [len(wave)/sr] and for [len(norm_wave)/16000]; a sample whose duration
    violates either bound is passed over, and every sample of the pooled
    corpus satisfies both bounds. *)
Theorem duration_filter_both_rates
    (E : Externals) (a : Dataset.args E) (d : Dict.t string) :
  let min_len := Dataset.min_len_in_seconds E a in
  let max_len := Dataset.max_len_in_seconds E a in
  let process_path :=
    Worker.process_path E d (Dataset.lang E a) min_len max_len
      (Dataset.phone_input E a) (Dataset.allow_unknown_symbols E a) in
  (∀ assumed_sr p s,
     process_path assumed_sr p = Ok (Some s) →
     ∃ wave sr nw,
       sf_read E p = Ok (wave, sr) ∧ resample E sr wave = Ok nw
       ∧ Worker.norm_wave s = tensor_numpy E nw
       ∧ within E min_len max_len (fdiv E (np_len E wave) sr)
       ∧ within E min_len max_len (fdiv E (tensor_len E nw) 16000))
  ∧ (∀ assumed_sr p wave sr,
       is_Some (Dict.get d p) → sf_read E p = Ok (wave, sr) → sr ≠ 0%Z →
       ¬ within E min_len max_len (fdiv E (np_len E wave) sr)
       ∨ (∃ nw, resample E assumed_sr wave = Ok nw
                ∧ ¬ within E min_len max_len (fdiv E (tensor_len E nw) 16000)) →
       process_path assumed_sr p = Ok None)
  ∧ (∀ key_splits order s,
       s ∈ Dataset.pool E (Dataset.run_processes E a d key_splits order) →
       ∃ wave sr nw,
         sf_read E (Worker.path s) = Ok (wave, sr) ∧ resample E sr wave = Ok nw
         ∧ Worker.norm_wave s = tensor_numpy E nw
         ∧ within E min_len max_len (fdiv E (np_len E wave) sr)
         ∧ within E min_len max_len (fdiv E (tensor_len E nw) 16000)).
Proof.
  intros min_len max_len process_path. split_and!.
  - intros assumed_sr p s [<- Hs]%process_path_Some.
    destruct Hs as (t & wave & nw & _ & ? & ? & ? & ? & _ & _ & ?).
    by exists wave, assumed_sr, nw.
  - intros assumed_sr p wave sr. apply process_path_out_of_bounds.
  - intros key_splits order s [assumed_sr Hs]%run_processes_derived.
    destruct Hs as (t & wave & nw & _ & ? & ? & ? & ? & _ & _ & ?).
    by exists wave, assumed_sr, nw.
Qed.

Lemma duration_filter_both_rates_witness :
  let process_path :=
    Worker.process_path Demo.externals Demo.transcripts "eng" (1 # 1)%Q (15 # 1)%Q
      false true in
  (∃ wave sr nw,
     sf_read Demo.externals "c.wav" = Ok (wave, sr)
     ∧ resample Demo.externals sr wave = Ok nw
     ∧ Demo.Audio 32001 "c" = tensor_numpy Demo.externals nw
     ∧ within Demo.externals (1 # 1)%Q (15 # 1)%Q
         (fdiv Demo.externals (np_len Demo.externals wave) sr)
     ∧ within Demo.externals (1 # 1)%Q (15 # 1)%Q
         (fdiv Demo.externals (tensor_len Demo.externals nw) 16000))
  ∧ process_path 16000%Z "b.wav" = Ok None
  ∧ process_path 16000%Z "e.wav" = Ok None.
Proof.
  intros process_path.
  pose proof (duration_filter_both_rates Demo.externals (Demo.args false true 1)
                Demo.transcripts) as (Hkeep & Hskip & _).
  split_and!.
  - apply (Hkeep 16000%Z "c.wav"
             (@Worker.Sample Demo.externals
                (Demo.Ints [1; 0; 3]%Z) (Demo.Ints [100; 16000]%Z)
                (Demo.Audio 32001 "c") "c.wav")).
    vm_compute. reflexivity.
  - apply (Hskip 16000%Z "b.wav" (Demo.Audio 320000 "b") 16000%Z).
    + eexists. vm_compute. reflexivity.
    + vm_compute. reflexivity.
    + discriminate.
    + left. intros [_ Hmax]. vm_compute in Hmax. discriminate Hmax.
  - apply (Hskip 16000%Z "e.wav" (Demo.Audio 240000 "e") 16000%Z).
    + eexists. vm_compute. reflexivity.
    + vm_compute. reflexivity.
    + discriminate.
    + right. exists (Demo.Audio 240001 "e"). split; [vm_compute; reflexivity|].
      intros [_ Hmax]. vm_compute in Hmax. discriminate Hmax.
Defined.

(** ** The text stage *)

Section encode_facts.
Context (E : Externals) (lang : string) (phone_input allow : bool).

Local Abbreviation encode_transcript :=
  (Worker.encode_transcript E lang phone_input allow).

Lemma encode_transcript_unknown transcript cached_text :
  string_to_tensor E lang transcript false phone_input = Raise KeyError →
  string_to_tensor E lang transcript true phone_input = Ok cached_text →
  encode_transcript transcript = if allow then Ok (Some cached_text) else Ok None.
Proof.
  intros Hstrict Hperm. unfold Worker.encode_transcript.
  rewrite Hstrict, Hperm. by destruct allow.
Qed.

Lemma encode_transcript_caught transcript :
  string_to_tensor E lang transcript false phone_input = Raise ValueError
  ∨ (string_to_tensor E lang transcript false phone_input = Raise KeyError
     ∧ (string_to_tensor E lang transcript true phone_input = Raise ValueError
        ∨ string_to_tensor E lang transcript true phone_input = Raise KeyError)) →
  encode_transcript transcript = Ok None.
Proof.
  unfold Worker.encode_transcript.
  intros [->|[-> [->| ->]]]; done.
Qed.

(** An exception of any class other than the two named in the [except]
    clauses leaves the [try] statement. *)
Lemma encode_transcript_uncaught transcript e :
  e ≠ KeyError → e ≠ ValueError →
  string_to_tensor E lang transcript false phone_input = Raise e
  ∨ (string_to_tensor E lang transcript false phone_input = Raise KeyError
     ∧ string_to_tensor E lang transcript true phone_input = Raise e) →
  encode_transcript transcript = Raise e.
Proof.
  unfold Worker.encode_transcript.
  intros Hk Hv [->|[-> ->]]; by destruct e.
Qed.

End encode_facts.

(** C4, as the code has it.  For a sample that passed the audio stages and
    whose transcript raises [KeyError] in strict mode and is encoded in
    permissive mode, the sample is appended to the chunk if and only if
    [allow_unknown_symbols] is true, and is passed over otherwise; an
    encoding failure raised as [ValueError] (strict or permissive mode) or
    as [KeyError] by the permissive retry passes the sample over and the
    loop goes on, while an exception of any other class leaves the loop.
    Accordingly a sample of the pooled corpus whose transcript raises
    [KeyError] in strict mode is there only if [allow_unknown_symbols] is
    true. *)
Theorem unknown_symbol_policy
    (E : Externals) (a : Dataset.args E) (d : Dict.t string) :
  let lang := Dataset.lang E a in
  let phone_input := Dataset.phone_input E a in
  let allow := Dataset.allow_unknown_symbols E a in
  let load_and_filter :=
    Worker.load_and_filter E d (Dataset.min_len_in_seconds E a)
      (Dataset.max_len_in_seconds E a) in
  let process_path :=
    Worker.process_path E d lang (Dataset.min_len_in_seconds E a)
      (Dataset.max_len_in_seconds E a) phone_input allow in
  (∀ assumed_sr p wave sr nw transcript,
     load_and_filter assumed_sr p = Ok (Some (wave, sr, nw)) →
     Dict.get d p = Some transcript →
     (∀ cached_text,
        string_to_tensor E lang transcript false phone_input = Raise KeyError →
        string_to_tensor E lang transcript true phone_input = Ok cached_text →
        ((∃ s, process_path assumed_sr p = Ok (Some s)) ↔ allow = true)
        ∧ (allow = true →
           process_path assumed_sr p
           = Ok (Some (Worker.Sample cached_text
                         (audio_to_codebook_indexes E assumed_sr wave sr)
                         (tensor_numpy E nw) p)))
        ∧ (allow = false → process_path assumed_sr p = Ok None))
     ∧ (string_to_tensor E lang transcript false phone_input = Raise ValueError
        ∨ (string_to_tensor E lang transcript false phone_input = Raise KeyError
           ∧ (string_to_tensor E lang transcript true phone_input = Raise ValueError
              ∨ string_to_tensor E lang transcript true phone_input = Raise KeyError)) →
        process_path assumed_sr p = Ok None)
     ∧ (∀ e, e ≠ KeyError → e ≠ ValueError →
          string_to_tensor E lang transcript false phone_input = Raise e
          ∨ (string_to_tensor E lang transcript false phone_input = Raise KeyError
             ∧ string_to_tensor E lang transcript true phone_input = Raise e) →
          process_path assumed_sr p = Raise e))
  ∧ (∀ key_splits order s transcript,
       s ∈ Dataset.pool E (Dataset.run_processes E a d key_splits order) →
       Dict.get d (Worker.path s) = Some transcript →
       string_to_tensor E lang transcript false phone_input = Raise KeyError →
       allow = true).
Proof.
  intros lang phone_input allow load_and_filter process_path.
  subst load_and_filter process_path. split.
  - intros assumed_sr p wave sr nw transcript Hload Ht.
    rewrite (process_path_encode _ _ _ _ _ _ _ _ _ _ _ _ _ Hload Ht).
    split_and!.
    + intros cached_text Hstrict Hperm.
      rewrite (encode_transcript_unknown _ _ _ _ _ _ Hstrict Hperm).
      destruct allow; simpl; split_and!; try done.
      * split; [done|]. intros _. eauto.
      * split; [|done]. by intros [s Hs].
    + intros Hfail. by rewrite (encode_transcript_caught _ _ _ _ _ Hfail).
    + intros e Hk Hv Hfail.
      by rewrite (encode_transcript_uncaught _ _ _ _ _ _ Hk Hv Hfail).
  - intros key_splits order s transcript [assumed_sr Hs]%run_processes_derived.
    destruct Hs as (t & wave & nw & Ht & _ & _ & _ & _ & Henc & _).
    intros Ht' Hstrict. replace t with transcript in Henc by congruence.
    subst lang phone_input allow.
    unfold Worker.encode_transcript in Henc. rewrite Hstrict in Henc.
    destruct (string_to_tensor E _ transcript true _) as [?|[]];
      destruct (Dataset.allow_unknown_symbols E a);
      try discriminate Henc; done.
Qed.

Lemma unknown_symbol_policy_witness :
  Worker.process_path Demo.externals Demo.transcripts "eng" (1 # 1)%Q (15 # 1)%Q
    false true 16000%Z "c.wav"
  = Ok (Some (@Worker.Sample Demo.externals
                (Demo.Ints [1; 0; 3]%Z) (Demo.Ints [100; 16000]%Z)
                (Demo.Audio 32001 "c") "c.wav"))
  ∧ Worker.process_path Demo.externals Demo.transcripts "eng" (1 # 1)%Q (15 # 1)%Q
      false false 16000%Z "c.wav" = Ok None
  ∧ Worker.process_path Demo.externals (("a.wav", "ni3hao") :: Demo.transcripts)
      "eng" (1 # 1)%Q (15 # 1)%Q false true 16000%Z "a.wav" = Ok None.
Proof.
  split_and!.
  - refine (proj1 (proj2 (proj1
      (proj1 (unknown_symbol_policy Demo.externals (Demo.args false true 1)
                Demo.transcripts)
         16000%Z "c.wav" (Demo.Audio 32000 "c") 16000%Z
         (Demo.Audio 32001 "c") "h#llo" _ _) (Demo.Ints [1; 0; 3]%Z) _ _)) _);
      vm_compute; reflexivity.
  - refine (proj2 (proj2 (proj1
      (proj1 (unknown_symbol_policy Demo.externals (Demo.args false false 1)
                Demo.transcripts)
         16000%Z "c.wav" (Demo.Audio 32000 "c") 16000%Z
         (Demo.Audio 32001 "c") "h#llo" _ _) (Demo.Ints [1; 0; 3]%Z) _ _)) _);
      vm_compute; reflexivity.
  - refine (proj1 (proj2
      (proj1 (unknown_symbol_policy Demo.externals (Demo.args false true 1)
                (("a.wav", "ni3hao") :: Demo.transcripts))
         16000%Z "a.wav" (Demo.Audio 48000 "a") 16000%Z
         (Demo.Audio 48001 "a") "ni3hao" _ _)) _).
    + vm_compute; reflexivity.
    + vm_compute; reflexivity.
    + left. vm_compute; reflexivity.
Defined.

(** The claim as written fails: with a frontend that raises an exception of
    another class on a transcript, the encoding failure is not turned into
    a skip; it leaves the loop and the worker ends without a chunk. *)
Lemma encoding_failure_not_caught :
  let d : Dict.t string := [("a.wav", "hello"); ("c.wav", "%")] in
  string_to_tensor Demo.externals "eng" "%" false false = Raise TypeError
  ∧ Worker.process_path Demo.externals d "eng" (1 # 1)%Q (15 # 1)%Q false true
      16000%Z "c.wav" = Raise TypeError
  ∧ Worker.cache_builder_process Demo.externals d "eng" (1 # 1)%Q (15 # 1)%Q
      false true ["a.wav"; "c.wav"] [] = (Raise TypeError, []).
Proof. vm_compute. done. Qed.

(** ** The first file of a partition *)

(** C9. If the first file of the partition cannot be read, the worker ends
    with that exception, whatever the rest of the partition holds, and the
    result pool is left as it was; if the first file can be read, a later
    key whose file cannot be read is only passed over: the worker does what
    it would have done without that key. *)
Theorem first_file_failure_is_fatal
    (E : Externals) (d : Dict.t string) (lang : string) (min_len max_len : num E)
    (phone_input allow : bool) (result_pool : list (list (Worker.sample E))) :
  let cache_builder_process :=
    Worker.cache_builder_process E d lang min_len max_len phone_input allow in
  (∀ first rest e,
     sf_read E first = Raise e →
     cache_builder_process (first :: rest) result_pool = (Raise e, result_pool))
  ∧ (∀ first l1 p l2 e assumed_sr,
       is_ok (sf_read E first) = true →
       is_Some (Dict.get d p) →
       sf_read E p = Raise e →
       Worker.process_path E d lang min_len max_len phone_input allow assumed_sr p
       = Ok None
       ∧ cache_builder_process (first :: l1 ++ p :: l2) result_pool
         = cache_builder_process (first :: l1 ++ l2) result_pool).
Proof.
  intros cache_builder_process. subst cache_builder_process. split.
  - intros first rest e Hread.
    by rewrite cache_builder_process_cons, Hread.
  - intros first l1 p l2 e assumed_sr Hfirst Hp Hread. split.
    + by eapply process_path_unreadable.
    + rewrite !cache_builder_process_cons.
      destruct (sf_read E first) as [[w0 sr]|e0]; [|done].
      rewrite !(app_comm_cons l1).
      rewrite (process_paths_skip E d lang min_len max_len phone_input allow
                 sr (first :: l1) p l2 []); [done|].
      by eapply process_path_unreadable.
Qed.

Lemma first_file_failure_is_fatal_witness :
  Worker.cache_builder_process Demo.externals Demo.transcripts "eng"
    (1 # 1)%Q (15 # 1)%Q false true ["g.wav"; "a.wav"] []
  = (Raise RuntimeError, [])
  ∧ Worker.cache_builder_process Demo.externals Demo.transcripts "eng"
      (1 # 1)%Q (15 # 1)%Q false true ("a.wav" :: [] ++ "g.wav" :: ["c.wav"]) []
    = Worker.cache_builder_process Demo.externals Demo.transcripts "eng"
        (1 # 1)%Q (15 # 1)%Q false true ("a.wav" :: [] ++ ["c.wav"]) [].
Proof.
  pose proof (first_file_failure_is_fatal Demo.externals Demo.transcripts "eng"
                (1 # 1)%Q (15 # 1)%Q false true []) as [Hfatal Hskip].
  split.
  - apply Hfatal. vm_compute. reflexivity.
  - refine (proj2 (Hskip "a.wav" [] "g.wav" ["c.wav"] RuntimeError 16000%Z _ _ _)).
    + vm_compute. reflexivity.
    + eexists. vm_compute. reflexivity.
    + vm_compute. reflexivity.
Defined.

(** C10. With more workers than keys some partition is empty, and the worker
    of an empty partition ends at once with [IndexError] from [path_list[0]],
    leaving the result pool as it was. *)
Theorem empty_partition_worker_fails
    (E : Externals) (d : Dict.t string) (lang : string) (min_len max_len : num E)
    (phone_input allow : bool) :
  (∀ (key_list : list string) (loading_processes : nat),
     length key_list < loading_processes →
     ∃ i, i < loading_processes
          ∧ Split.key_splits key_list loading_processes !! i = Some [])
  ∧ (∀ result_pool,
       Worker.cache_builder_process E d lang min_len max_len phone_input allow
         [] result_pool
       = (Raise IndexError, result_pool)).
Proof.
  split.
  - intros key_list p Hlt. exists 0. split; [lia|].
    unfold Split.key_splits. rewrite list_lookup_fmap, lookup_seq_lt by lia.
    change (Some (Split.key_split key_list p 0) = Some []). f_equal.
    unfold Split.key_split, slice.
    rewrite Nat.mul_0_l, Nat.mul_1_l, Nat.Div0.div_0_l.
    by rewrite (Nat.div_small (length key_list) p) by done.
  - done.
Qed.

Lemma empty_partition_worker_fails_witness :
  ∃ i, i < 3 ∧ Split.key_splits ["a.wav"; "c.wav"] 3 !! i = Some [].
Proof.
  refine (proj1 (empty_partition_worker_fails Demo.externals Demo.transcripts
                   "eng" (1 # 1)%Q (15 # 1)%Q false true) ["a.wav"; "c.wav"] 3 _).
  simpl. lia.
Defined.

(** ** Properties of the constructor *)

Lemma path_join_inj d name1 name2 :
  Str.path_join d name1 = Str.path_join d name2 → name1 = name2.
Proof.
  unfold Str.path_join. case_bool_decide as Hd; [done|].
  destruct (Str.ends_with_sep d); intros Heq.
  - by apply (inj (String.app d)) in Heq.
  - apply (inj (String.app d)) in Heq. by apply (inj (String.app "/")) in Heq.
Qed.

Section dataset_facts.
Context (E : Externals) (R : RandomSource).
Implicit Types (a : Dataset.args E) (w : Dataset.world E R).

Local Abbreviation cache_file := (Dataset.cache_file E).
Local Abbreviation files_used_file := (Dataset.files_used_file E).
Local Abbreviation fs := (Dataset.fs E R).
Local Abbreviation trace := (Dataset.trace E R).

Lemma cache_file_not_files_used a : files_used_file a ≠ cache_file a.
Proof. intros H%path_join_inj. discriminate H. Qed.

(** What the coordinator leaves behind, however it ends: the note with the
    key list is the only file written. *)
Lemma gather_world a w w1 r :
  Dataset.gather E R a w = (w1, r) →
  fs w1 = <[files_used_file a := Dataset.KeyListNote E (Dict.keys (Dataset.transcripts_of E a))]> (fs w)
  ∧ ∃ evs, trace w1 = trace w ++ Dataset.FileWritten (files_used_file a) :: evs
           ∧ Forall not_a_write evs.
Proof.
  unfold Dataset.gather.
  destruct (Shuffle.fisher_yates_shuffle R _ _) as [g [key_list|e]];
    intros [= <- <-]; simpl; (split; [done|]).
  - exists (Dataset.Print "... building dataset cache ..."
            :: (Dataset.Start <$> Split.key_splits key_list
                                   (Dataset.loading_processes E a))
            ++ [Dataset.Print "pooling results..."]).
    split; [by rewrite <- !app_assoc|].
    constructor; [done|]. apply Forall_app. split; [|by repeat constructor].
    apply Forall_fmap, Forall_true. done.
  - exists []. done.
Qed.

(** The joint list comes out of the worker pool run on some split. *)
Lemma gather_Ok a w w1 pooled :
  Dataset.gather E R a w = (w1, Ok pooled) →
  ∃ key_splits order,
    pooled = Dataset.pool E (Dataset.run_processes E a (Dataset.transcripts_of E a)
                               key_splits order).
Proof.
  unfold Dataset.gather.
  destruct (Shuffle.fisher_yates_shuffle R _ _) as [g [key_list|e]];
    intros [= <- <-]. eauto.
Qed.

Lemma zip_fmap_same {A B C} (f : A → B) (g : A → C) (l : list A) :
  zip (f <$> l) (g <$> l) = (λ x, (f x, g x)) <$> l.
Proof. induction l as [|x l IH]; simpl; [done|]. f_equal. exact IH. Qed.

Lemma assemble_datapoints pooled :
  Dataset.blob_datapoints E (Dataset.assemble E pooled)
  = (λ s, (ShortTensor E (Worker.cached_text s),
           ShortTensor E (Worker.cached_speech s))) <$> pooled.
Proof. unfold Dataset.assemble. simpl. apply zip_fmap_same. Qed.

Lemma assemble_speaker_embeddings pooled :
  Dataset.blob_speaker_embeddings E (Dataset.assemble E pooled)
  = (λ s, encode_batch E (Tensor E (Worker.norm_wave s))) <$> pooled.
Proof. unfold Dataset.assemble. simpl. by rewrite <- list_fmap_compose. Qed.

(** A construction that succeeds saved what it assembled. *)
Lemma build_Ok a w w' ds :
  Dataset.build E R a w = (w', Ok ds) →
  ∃ w1 pooled,
    Dataset.gather E R a w = (w1, Ok pooled)
    ∧ Dataset.datapoints E ds = Dataset.blob_datapoints E (Dataset.assemble E pooled)
    ∧ Dataset.speaker_embeddings E ds
      = Dataset.blob_speaker_embeddings E (Dataset.assemble E pooled)
    ∧ Dataset.tf E ds = Dataset.lang E a
    ∧ Dataset.torch_load E R w' (cache_file a) = Ok (Dataset.assemble E pooled).
Proof.
  unfold Dataset.build.
  destruct (Dataset.gather E R a w) as [w1 [pooled|e]]; [|by intros [=]].
  case_bool_decide; [by intros [=]|].
  unfold Dataset.finish. intros [= <- <-]. exists w1, pooled.
  split_and!; try done.
  unfold Dataset.torch_load. simpl. by rewrite lookup_insert_eq.
Qed.

Lemma init_build a w :
  Dataset.path_exists E R w (cache_file a) = false
  ∨ Dataset.rebuild_cache E a = true →
  Dataset.init E R a w = Dataset.build E R a w.
Proof. unfold Dataset.init. by intros [->| ->]; rewrite ?orb_true_r. Qed.

Lemma init_load a w :
  Dataset.path_exists E R w (cache_file a) = true →
  Dataset.rebuild_cache E a = false →
  Dataset.init E R a w = Dataset.load E R a w.
Proof. unfold Dataset.init. by intros -> ->. Qed.

Lemma not_a_write_not_elem evs p :
  Forall not_a_write evs → Dataset.FileWritten p ∉ evs.
Proof.
  intros Hall Hin. rewrite Forall_forall in Hall. exact (Hall _ Hin).
Qed.

(** The construction branch starts by writing the note with the key list. *)
Lemma build_trace a w :
  ∃ evs, trace (Dataset.build E R a w).1
         = trace w ++ Dataset.FileWritten (files_used_file a) :: evs.
Proof.
  unfold Dataset.build.
  destruct (Dataset.gather E R a w) as [w1 r] eqn:Hg.
  apply gather_world in Hg as (_ & evs & Htr & _).
  destruct r as [pooled|e]; [|by exists evs].
  case_bool_decide; simpl; rewrite Htr, <- !app_assoc; simpl; eauto.
Qed.

(** The load branch writes nothing and prints at most its last line. *)
Lemma load_world a w :
  fs (Dataset.load E R a w).1 = fs w
  ∧ Dataset.random E R (Dataset.load E R a w).1 = Dataset.random E R w
  ∧ (trace (Dataset.load E R a w).1 = trace w
     ∨ ∃ line, trace (Dataset.load E R a w).1 = trace w ++ [Dataset.Print line]).
Proof.
  unfold Dataset.load.
  destruct (Dataset.torch_load E R w (cache_file a)); simpl; eauto.
Qed.

Lemma load_Ok a w blob :
  fs w !! cache_file a = Some (Dataset.TorchBlob E blob) →
  ∃ line,
    Dataset.load E R a w
    = (Dataset.print E R line w,
       Ok (Dataset.Self E (Dataset.blob_datapoints E blob)
             (Dataset.blob_speaker_embeddings E blob) (Dataset.lang E a) None)).
Proof.
  intros Hblob. unfold Dataset.load, Dataset.torch_load. rewrite Hblob.
  unfold Dataset.finish. eauto.
Qed.

End dataset_facts.

Section getitem_facts.
Context {A B : Type}.

Lemma getitem_int_fmap (f : A → B) (l : list A) (i : Z) :
  getitem_int (f <$> l) i = x ← getitem_int l i; Ok (f x).
Proof.
  unfold getitem_int, getitem. rewrite length_fmap, !list_lookup_fmap.
  repeat case_match; simplify_eq/=; done.
Qed.

Lemma getitem_int_in_range (l : list A) (i : Z) :
  (- Z.of_nat (length l) ≤ i < Z.of_nat (length l))%Z →
  ∃ x, getitem_int l i = Ok x.
Proof.
  intros Hi. unfold getitem_int, getitem.
  destruct (0 <=? i)%Z eqn:Hpos.
  - apply Z.leb_le in Hpos.
    destruct (lookup_lt_is_Some_2 l (Z.to_nat i)) as [x ->]; [lia|eauto].
  - apply Z.leb_gt in Hpos.
    destruct (0 <=? Z.of_nat (length l) + i)%Z eqn:Hneg.
    + destruct (lookup_lt_is_Some_2 l (Z.to_nat (Z.of_nat (length l) + i)))
        as [x ->]; [lia|eauto].
    + apply Z.leb_gt in Hneg. lia.
Qed.

End getitem_facts.

(** ** An empty corpus *)

(** C5. When the constructor builds (no cache file, or a rebuild is asked
    for) and the list of datapoints assembled from the pooled chunks is
    empty, it raises [RuntimeError]; the cache file is what it was before
    the call, and no write to it appears among the events of the call. *)
Theorem empty_corpus_is_fatal
    (E : Externals) (R : RandomSource) (a : Dataset.args E)
    (w w1 : Dataset.world E R) (pooled : list (Worker.sample E)) :
  Dataset.path_exists E R w (Dataset.cache_file E a) = false
  ∨ Dataset.rebuild_cache E a = true →
  Dataset.gather E R a w = (w1, Ok pooled) →
  Dataset.blob_datapoints E (Dataset.assemble E pooled) = [] →
  ∃ w',
    Dataset.init E R a w = (w', Raise RuntimeError)
    ∧ Dataset.fs E R w' !! Dataset.cache_file E a
      = Dataset.fs E R w !! Dataset.cache_file E a
    ∧ ∃ evs, Dataset.trace E R w' = Dataset.trace E R w ++ evs
             ∧ Dataset.FileWritten (Dataset.cache_file E a) ∉ evs.
Proof.
  intros Hbuild Hg Hempty. rewrite (init_build E R a w Hbuild).
  unfold Dataset.build. rewrite Hg, Hempty. simpl.
  eexists. split; [reflexivity|].
  apply gather_world in Hg as (Hfs & evs & Htr & Hevs). simpl. split.
  - rewrite Hfs. apply lookup_insert_ne, cache_file_not_files_used.
  - eexists. rewrite Htr, <- !app_assoc. split; [reflexivity|].
    simpl. intros [Heq|Hin]%elem_of_cons.
    + injection Heq as Heq. symmetry in Heq.
      by apply cache_file_not_files_used in Heq.
    + apply not_a_write_not_elem in Hin; [done|].
      apply Forall_app. split; [done|]. by repeat constructor.
Qed.

Lemma empty_corpus_is_fatal_witness :
  ∃ w',
    Dataset.init Demo.externals lcg
      (Demo.args_for [("g.wav", "hello")] false true 1) Demo.world0
    = (w', Raise RuntimeError)
    ∧ Dataset.fs Demo.externals lcg w' !! "cache/aligner_train_cache.pt" = None.
Proof.
  destruct (empty_corpus_is_fatal Demo.externals lcg
              (Demo.args_for [("g.wav", "hello")] false true 1) Demo.world0
              (Dataset.gather Demo.externals lcg
                 (Demo.args_for [("g.wav", "hello")] false true 1) Demo.world0).1
              [])
    as (w' & Hinit & Hfs & _).
  - left. vm_compute. reflexivity.
  - vm_compute. reflexivity.
  - reflexivity.
  - exists w'. split; [exact Hinit|]. etrans; [exact Hfs|]. vm_compute. reflexivity.
Defined.

(** ** Loading from the cache *)

(** C6. With the cache file holding a saved tuple and [rebuild_cache]
    false, the constructor returns the saved datapoints and speaker
    embeddings; in doing so it writes no file, draws no random number and
    starts no process: its only event is the last printed line.  The
    construction branch, which begins by writing the note with the key
    list, is taken if and only if the cache file is missing or
    [rebuild_cache] is true. *)
Theorem cached_load_skips_construction
    (E : Externals) (R : RandomSource) (a : Dataset.args E)
    (w : Dataset.world E R) :
  (∀ blob,
     Dataset.fs E R w !! Dataset.cache_file E a = Some (Dataset.TorchBlob E blob) →
     Dataset.rebuild_cache E a = false →
     ∃ w' ds line,
       Dataset.init E R a w = (w', Ok ds)
       ∧ Dataset.datapoints E ds = Dataset.blob_datapoints E blob
       ∧ Dataset.speaker_embeddings E ds = Dataset.blob_speaker_embeddings E blob
       ∧ Dataset.fs E R w' = Dataset.fs E R w
       ∧ Dataset.random E R w' = Dataset.random E R w
       ∧ Dataset.trace E R w' = Dataset.trace E R w ++ [Dataset.Print line])
  ∧ ((∃ evs, Dataset.trace E R (Dataset.init E R a w).1
             = Dataset.trace E R w
               ++ Dataset.FileWritten (Dataset.files_used_file E a) :: evs)
     ↔ (Dataset.path_exists E R w (Dataset.cache_file E a) = false
        ∨ Dataset.rebuild_cache E a = true)).
Proof.
  split.
  - intros blob Hblob Hrebuild.
    rewrite init_load; [|unfold Dataset.path_exists; rewrite Hblob|done].
    2:{ by apply bool_decide_eq_true_2. }
    destruct (load_Ok E R a w blob Hblob) as [line ->].
    eexists _, _, line. split; [reflexivity|]. done.
  - split.
    + intros [evs Hevs].
      destruct (Dataset.path_exists E R w (Dataset.cache_file E a)) eqn:Hex;
        [|by left].
      destruct (Dataset.rebuild_cache E a) eqn:Hrb; [by right|].
      exfalso. rewrite init_load in Hevs by done.
      destruct (load_world E R a w) as (_ & _ & [Htr|[line Htr]]);
        rewrite Htr in Hevs.
      * rewrite <- (app_nil_r (Dataset.trace E R w)) in Hevs at 1.
        by apply app_inv_head in Hevs.
      * by apply app_inv_head in Hevs.
    + intros Hbuild. rewrite init_build by done. apply build_trace.
Qed.

Lemma cached_load_skips_construction_witness :
  let built :=
    (Dataset.init Demo.externals lcg (Demo.args false true 2) Demo.world0).1 in
  ∃ w' ds line,
    Dataset.init Demo.externals lcg (Demo.args false true 2) built = (w', Ok ds)
    ∧ Dataset.datapoints Demo.externals ds
      = [(Demo.Ints [1; 0; 3]%Z, Demo.Ints [100; 16000]%Z)]
    ∧ Dataset.speaker_embeddings Demo.externals ds = [Demo.Ints [32001]%Z]
    ∧ Dataset.fs Demo.externals lcg w' = Dataset.fs Demo.externals lcg built
    ∧ Dataset.random Demo.externals lcg w' = Dataset.random Demo.externals lcg built
    ∧ Dataset.trace Demo.externals lcg w'
      = Dataset.trace Demo.externals lcg built ++ [Dataset.Print line].
Proof.
  intros built.
  refine (proj1 (cached_load_skips_construction Demo.externals lcg
                   (Demo.args false true 2) built)
            (Dataset.Blob Demo.externals
               [(Demo.Ints [1; 0; 3]%Z, Demo.Ints [100; 16000]%Z)] ()
               [Demo.Ints [32001]%Z] ["c.wav"]) _ _).
  - vm_compute. reflexivity.
  - reflexivity.
Defined.

(** ** Saving and loading *)

(** C7. Reading the cache file after a tuple was saved to it gives that
    tuple back: datapoints (token and speech-code tensors), reserved slot,
    speaker embeddings and source paths; the load branch of the
    constructor, run on the saved file, exposes exactly the saved datapoints
    and speaker embeddings.  In particular a later construction without
    rebuild returns the datapoints and embeddings of the construction that
    wrote the cache. *)
Theorem cache_round_trip
    (E : Externals) (R : RandomSource) (a : Dataset.args E)
    (w : Dataset.world E R) (blob : Dataset.cache_blob E) :
  let saved := Dataset.torch_save E R blob (Dataset.cache_file E a) w in
  Dataset.torch_load E R saved (Dataset.cache_file E a) = Ok blob
  ∧ (∃ w' ds,
       Dataset.load E R a saved = (w', Ok ds)
       ∧ Dataset.datapoints E ds = Dataset.blob_datapoints E blob
       ∧ Dataset.speaker_embeddings E ds = Dataset.blob_speaker_embeddings E blob)
  ∧ (∀ w0 w1 ds,
       Dataset.build E R a w0 = (w1, Ok ds) →
       ∃ filepaths,
         Dataset.torch_load E R w1 (Dataset.cache_file E a)
         = Ok (Dataset.Blob E (Dataset.datapoints E ds) ()
                 (Dataset.speaker_embeddings E ds) filepaths)
         ∧ ∀ a2 w2,
             Dataset.cache_dir E a2 = Dataset.cache_dir E a →
             Dataset.rebuild_cache E a2 = false →
             Dataset.fs E R w2 = Dataset.fs E R w1 →
             ∃ w3 ds2,
               Dataset.init E R a2 w2 = (w3, Ok ds2)
               ∧ Dataset.datapoints E ds2 = Dataset.datapoints E ds
               ∧ Dataset.speaker_embeddings E ds2 = Dataset.speaker_embeddings E ds).
Proof.
  intros saved.
  assert (Hsaved : Dataset.fs E R saved !! Dataset.cache_file E a
                   = Some (Dataset.TorchBlob E blob))
    by (subst saved; simpl; apply lookup_insert_eq).
  split_and!.
  - unfold Dataset.torch_load. by rewrite Hsaved.
  - destruct (load_Ok E R a saved blob Hsaved) as [line ->]. by eexists _, _.
  - intros w0 w1 ds (w' & pooled & _ & Hdp & Hemb & _ & Hload)%build_Ok.
    exists (Worker.path <$> pooled). split.
    + rewrite Hload, Hdp, Hemb. done.
    + intros a2 w2 Hdir Hrebuild Hfs.
      assert (Hfile : Dataset.cache_file E a2 = Dataset.cache_file E a)
        by (unfold Dataset.cache_file; by rewrite Hdir).
      assert (Hblob : Dataset.fs E R w2 !! Dataset.cache_file E a2
                      = Some (Dataset.TorchBlob E (Dataset.assemble E pooled))).
      { rewrite Hfs, Hfile. unfold Dataset.torch_load in Hload.
        destruct (Dataset.fs E R w1 !! Dataset.cache_file E a) as [[?|?]|];
          by simplify_eq. }
      rewrite init_load; [|unfold Dataset.path_exists; rewrite Hblob|done].
      2:{ by apply bool_decide_eq_true_2. }
      destruct (load_Ok E R a2 w2 _ Hblob) as [line ->].
      eexists _, _. split; [reflexivity|]. simpl. by rewrite Hdp, Hemb.
Qed.

Lemma cache_round_trip_witness :
  let a := Demo.args false true 2 in
  let built := Dataset.build Demo.externals lcg a Demo.world0 in
  ∃ w3 ds2,
    Dataset.init Demo.externals lcg a built.1 = (w3, Ok ds2)
    ∧ Dataset.datapoints Demo.externals ds2
      = [(Demo.Ints [1; 0; 3]%Z, Demo.Ints [100; 16000]%Z)]
    ∧ Dataset.speaker_embeddings Demo.externals ds2 = [Demo.Ints [32001]%Z].
Proof.
  intros a built.
  destruct (proj2 (proj2 (cache_round_trip Demo.externals lcg a Demo.world0
                            (Dataset.Blob Demo.externals [] () [] [])))
              Demo.world0 built.1
              (Dataset.Self Demo.externals
                 [(Demo.Ints [1; 0; 3]%Z, Demo.Ints [100; 16000]%Z)]
                 [Demo.Ints [32001]%Z] "eng" None))
    as (filepaths & _ & Hreload).
  - vm_compute. reflexivity.
  - exact (Hreload a built.1 eq_refl eq_refl eq_refl).
Defined.

(** ** Index alignment *)

(** C8. After a construction, the datapoints and the speaker embeddings are
    the images, in order, of one list of samples: for every valid index
    (negative ones counting from the end) the datapoint and the embedding
    at that index come from the same sample, whose speech codes and
    normalized waveform were computed from the one file the sample names,
    and [__getitem__] returns that embedding as its last component. *)
Theorem index_alignment
    (E : Externals) (R : RandomSource) (a : Dataset.args E)
    (w w' : Dataset.world E R) (ds : Dataset.dataset E) :
  Dataset.path_exists E R w (Dataset.cache_file E a) = false
  ∨ Dataset.rebuild_cache E a = true →
  Dataset.init E R a w = (w', Ok ds) →
  ∃ pooled : list (Worker.sample E),
    Dataset.len E ds = length pooled
    ∧ length (Dataset.speaker_embeddings E ds) = length pooled
    ∧ (∀ s, s ∈ pooled →
         ∃ assumed_sr,
           derived_from E (Dataset.transcripts_of E a) (Dataset.lang E a)
             (Dataset.min_len_in_seconds E a) (Dataset.max_len_in_seconds E a)
             (Dataset.phone_input E a) (Dataset.allow_unknown_symbols E a)
             assumed_sr s)
    ∧ (∀ index : Z,
         (- Z.of_nat (Dataset.len E ds) ≤ index < Z.of_nat (Dataset.len E ds))%Z →
         ∃ s,
           getitem_int pooled index = Ok s
           ∧ getitem_int (Dataset.datapoints E ds) index
             = Ok (ShortTensor E (Worker.cached_text s),
                   ShortTensor E (Worker.cached_speech s))
           ∧ getitem_int (Dataset.speaker_embeddings E ds) index
             = Ok (encode_batch E (Tensor E (Worker.norm_wave s)))
           ∧ (Dataset.getitem E ds index).2
             = (let text_vector := ShortTensor E (Worker.cached_text s) in
                let speech_indexes := ShortTensor E (Worker.cached_speech s) in
                let tokens :=
                  text_vectors_to_id_sequence E (Dataset.tf E ds) text_vector in
                Ok (tokens, length tokens,
                    indexes_to_codec_frames E speech_indexes,
                    tensor_len E speech_indexes,
                    encode_batch E (Tensor E (Worker.norm_wave s))))).
Proof.
  intros Hbuild Hinit. rewrite init_build in Hinit by done.
  apply build_Ok in Hinit as (w1 & pooled & Hg & Hdp & Hemb & _ & _).
  rewrite assemble_datapoints in Hdp. rewrite assemble_speaker_embeddings in Hemb.
  exists pooled. unfold Dataset.len. rewrite Hdp, Hemb, !length_fmap.
  split_and!; try done.
  - apply gather_Ok in Hg as (key_splits & order & ->).
    intros s. apply run_processes_derived.
  - intros index Hindex.
    destruct (getitem_int_in_range pooled index Hindex) as [s Hs].
    exists s. rewrite !getitem_int_fmap, Hs. split_and!; try done.
    unfold Dataset.getitem.
    destruct ds as [dps embs lng [sr|]]; simpl in *; subst dps embs;
      rewrite !getitem_int_fmap, Hs; done.
Qed.

Lemma index_alignment_witness :
  ∃ pooled : list (Worker.sample Demo.externals),
    length pooled = 2
    ∧ ∀ index : Z, (-2 ≤ index < 2)%Z →
        ∃ s, getitem_int pooled index = Ok s
             ∧ getitem_int
                 (Dataset.speaker_embeddings Demo.externals
                    match (Dataset.init Demo.externals lcg (Demo.args false true 1)
                             Demo.world0).2 with
                    | Ok ds => ds
                    | Raise _ => Dataset.Self Demo.externals [] [] "" None
                    end) index
               = Ok (encode_batch Demo.externals
                       (Tensor Demo.externals (Worker.norm_wave s))).
Proof.
  destruct (index_alignment Demo.externals lcg (Demo.args false true 1)
              Demo.world0
              (Dataset.init Demo.externals lcg (Demo.args false true 1)
                 Demo.world0).1
              match (Dataset.init Demo.externals lcg (Demo.args false true 1)
                       Demo.world0).2 with
              | Ok ds => ds
              | Raise _ => Dataset.Self Demo.externals [] [] "" None
              end)
    as (pooled & Hlen & _ & _ & Hindex).
  - left. vm_compute. reflexivity.
  - vm_compute. reflexivity.
  - exists pooled. split; [rewrite <- Hlen; vm_compute; reflexivity|].
    intros index Hi. destruct (Hindex index Hi) as (s & Hs & _ & Hemb & _).
    by exists s.
Defined.

(** * Further properties of the module *)

(** ** The per-key pipeline, key by key *)

Section pipeline_facts.
Context (E : Externals).
Context (d : Dict.t string) (lang : string) (min_len max_len : num E).
Context (phone_input allow_unknown_symbols : bool).

Local Abbreviation within := (within E min_len max_len).
Local Abbreviation load_and_filter :=
  (Worker.load_and_filter E d min_len max_len).
Local Abbreviation encode_transcript :=
  (Worker.encode_transcript E lang phone_input allow_unknown_symbols).
Local Abbreviation process_path :=
  (Worker.process_path E d lang min_len max_len phone_input allow_unknown_symbols).
Local Abbreviation process_paths :=
  (Worker.process_paths E d lang min_len max_len phone_input allow_unknown_symbols).
Local Abbreviation cache_builder_process :=
  (Worker.cache_builder_process E d lang min_len max_len phone_input
                                allow_unknown_symbols).

(** The audio stages succeed on a key whose transcript is not blank, whose
    file is read at the assumed rate and whose two durations are in bounds. *)
Lemma load_and_filter_pass assumed_sr p transcript wave nw :
  Dict.get d p = Some transcript → Str.strip transcript ≠ "" →
  sf_read E p = Ok (wave, assumed_sr) → assumed_sr ≠ 0%Z →
  within (fdiv E (np_len E wave) assumed_sr) →
  resample E assumed_sr wave = Ok nw →
  within (fdiv E (tensor_len E nw) 16000) →
  load_and_filter assumed_sr p = Ok (Some (wave, assumed_sr, nw)).
Proof.
  intros Ht Hblank Hread Hsr Hb1 Hres Hb2.
  unfold Worker.load_and_filter, Dict.getitem. rewrite Ht. simpl.
  rewrite bool_decide_eq_false_2 by done. rewrite Hread, Z.eqb_refl. simpl.
  unfold Worker.truediv. apply Z.eqb_neq in Hsr. rewrite Hsr. simpl.
  apply in_bounds_within in Hb1, Hb2. rewrite Hb1. simpl.
  rewrite Hres. simpl. by rewrite Hb2.
Qed.

(** X1. The loop body appends a sample for a key exactly when the key has a
    transcript that is not blank, its file is read with the assumed,
    non-zero sampling rate, both durations are within bounds, resampling
    succeeds and the transcript is encoded; the sample then carries the
    encoded text, the codec indexes of the wave as read (not resampled),
    the resampled wave and the key. *)
Theorem process_path_keeps_iff (assumed_sr : Z) (p : string) (s : Worker.sample E) :
  process_path assumed_sr p = Ok (Some s)
  ↔ Worker.path s = p ∧ assumed_sr ≠ 0%Z
    ∧ ∃ transcript wave nw,
        Dict.get d p = Some transcript ∧ Str.strip transcript ≠ ""
        ∧ sf_read E p = Ok (wave, assumed_sr)
        ∧ within (fdiv E (np_len E wave) assumed_sr)
        ∧ resample E assumed_sr wave = Ok nw
        ∧ within (fdiv E (tensor_len E nw) 16000)
        ∧ encode_transcript transcript = Ok (Some (Worker.cached_text s))
        ∧ Worker.cached_speech s
          = audio_to_codebook_indexes E assumed_sr wave assumed_sr
        ∧ Worker.norm_wave s = tensor_numpy E nw.
Proof.
  split.
  - unfold Worker.process_path. intros H.
    apply bind_Ok in H as ([[[wave sr] nw]|] & Hload & H); [|discriminate H].
    apply load_and_filter_Some in Hload
      as (-> & Hsr & (t & Ht & Hblank) & Hread & Hb1 & Hres & Hb2).
    apply bind_Ok in H as (transcript & Ht'%dict_getitem_Ok & H).
    apply bind_Ok in H as ([text|] & Henc & H); [|discriminate H].
    injection H as <-. simpl. split_and!; try done.
    exists transcript, wave, nw. replace t with transcript in * by congruence.
    split_and!; done.
  - intros (<- & Hsr & t & wave & nw & Ht & Hblank & Hread & Hb1 & Hres & Hb2
            & Henc & Hspeech & Hnorm).
    rewrite (process_path_encode E d lang min_len max_len phone_input
               allow_unknown_symbols assumed_sr (Worker.path s) wave assumed_sr
               nw t); [|by apply (load_and_filter_pass assumed_sr _ t)|done].
    rewrite Henc. simpl. destruct s as [ct cs nwv pth]. simpl in *.
    by rewrite Hspeech, Hnorm.
Qed.

(** X2. A key whose transcript is blank is passed over whatever its file
    holds, and in any position but the first the worker does what it would
    do without the key; in first position its file is still read to fix
    the assumed rate, so an unreadable file ends the worker all the same. *)
Theorem blank_transcript_is_skipped (p transcript : string) :
  Dict.get d p = Some transcript → Str.strip transcript = "" →
  (∀ assumed_sr, process_path assumed_sr p = Ok None)
  ∧ (∀ first l1 l2 result_pool,
       cache_builder_process (first :: l1 ++ p :: l2) result_pool
       = cache_builder_process (first :: l1 ++ l2) result_pool)
  ∧ (∀ rest result_pool e,
       sf_read E p = Raise e →
       cache_builder_process (p :: rest) result_pool = (Raise e, result_pool)).
Proof.
  intros Ht Hblank.
  assert (Hskip : ∀ assumed_sr, process_path assumed_sr p = Ok None).
  { intros assumed_sr. unfold Worker.process_path, Worker.load_and_filter,
      Dict.getitem. rewrite Ht. simpl. by rewrite bool_decide_eq_true_2. }
  split_and!; [done|..].
  - intros first l1 l2 result_pool. rewrite !cache_builder_process_cons.
    destruct (sf_read E first) as [[w0 sr]|e0]; [|done].
    rewrite !(app_comm_cons l1).
    by rewrite (process_paths_skip E d lang min_len max_len phone_input
                  allow_unknown_symbols sr (first :: l1) p l2 []).
  - intros rest result_pool e Hread.
    by rewrite cache_builder_process_cons, Hread.
Qed.

(** The loop stops at the first key for which the body raises. *)
Lemma process_paths_raise assumed_sr l1 p l2 acc e :
  Forall (λ q, is_ok (process_path assumed_sr q) = true) l1 →
  process_path assumed_sr p = Raise e →
  process_paths assumed_sr (l1 ++ p :: l2) acc = Raise e.
Proof.
  intros Hl1 Hp. revert acc.
  induction Hl1 as [|q l1 Hq _ IH]; intros acc; simpl.
  - by rewrite Hp.
  - destruct (process_path assumed_sr q) as [step|e']; [|discriminate Hq].
    simpl. apply IH.
Qed.

(** X3. When the loop body raises for some key of the partition, the worker
    ends with that exception and the samples it had accumulated from the
    earlier keys never reach the pool; this is what happens with
    [KeyError] for a key that is not in the transcript dictionary. *)
Theorem worker_exception_discards_chunk
    (first : string) (l1 : list string) (p : string) (l2 : list string)
    (w0 : ndarray E) (assumed_sr : Z) (result_pool : list (list (Worker.sample E))) :
  sf_read E first = Ok (w0, assumed_sr) →
  Forall (λ q, is_ok (process_path assumed_sr q) = true) (first :: l1) →
  (∀ e, process_path assumed_sr p = Raise e →
        cache_builder_process (first :: l1 ++ p :: l2) result_pool
        = (Raise e, result_pool))
  ∧ (Dict.get d p = None →
     cache_builder_process (first :: l1 ++ p :: l2) result_pool
     = (Raise KeyError, result_pool)).
Proof.
  intros Hfirst Hl1.
  assert (Hraise : ∀ e, process_path assumed_sr p = Raise e →
            cache_builder_process (first :: l1 ++ p :: l2) result_pool
            = (Raise e, result_pool)).
  { intros e Hp. rewrite cache_builder_process_cons, Hfirst.
    rewrite (app_comm_cons l1).
    by rewrite (process_paths_raise assumed_sr (first :: l1) p l2 [] e). }
  split; [done|]. intros Hnone. apply Hraise.
  unfold Worker.process_path, Worker.load_and_filter, Dict.getitem.
  by rewrite Hnone.
Qed.

End pipeline_facts.

Lemma blank_transcript_is_skipped_witness :
  Worker.process_path Demo.externals Demo.transcripts "eng" (1 # 1)%Q (15 # 1)%Q
    false true 16000%Z "f.wav" = Ok None
  ∧ Worker.cache_builder_process Demo.externals Demo.transcripts "eng"
      (1 # 1)%Q (15 # 1)%Q false true ("a.wav" :: ["c.wav"] ++ "f.wav" :: []) []
    = Worker.cache_builder_process Demo.externals Demo.transcripts "eng"
        (1 # 1)%Q (15 # 1)%Q false true ("a.wav" :: ["c.wav"] ++ []) [].
Proof.
  pose proof (blank_transcript_is_skipped Demo.externals Demo.transcripts "eng"
                (1 # 1)%Q (15 # 1)%Q false true "f.wav" " "
                ltac:(vm_compute; reflexivity) ltac:(vm_compute; reflexivity))
    as (Hskip & Hdrop & _).
  split; [apply Hskip|apply Hdrop].
Defined.

Lemma worker_exception_discards_chunk_witness :
  Worker.cache_builder_process Demo.externals Demo.transcripts "eng"
    (1 # 1)%Q (15 # 1)%Q false true ("a.wav" :: ["c.wav"] ++ "z.wav" :: ["e.wav"]) []
  = (Raise KeyError, []).
Proof.
  refine (proj2 (worker_exception_discards_chunk Demo.externals Demo.transcripts
                   "eng" (1 # 1)%Q (15 # 1)%Q false true "a.wav" ["c.wav"] "z.wav"
                   ["e.wav"] (Demo.Audio 48000 "a") 16000%Z [] _ _) _).
  - vm_compute. reflexivity.
  - repeat constructor.
  - vm_compute. reflexivity.
Defined.

(** ** The chunk of one worker *)

Section chunk_facts.
Context (E : Externals).
Context (d : Dict.t string) (lang : string) (min_len max_len : num E).
Context (phone_input allow_unknown_symbols : bool).

Local Abbreviation within := (within E min_len max_len).
Local Abbreviation process_path :=
  (Worker.process_path E d lang min_len max_len phone_input allow_unknown_symbols).
Local Abbreviation process_paths :=
  (Worker.process_paths E d lang min_len max_len phone_input allow_unknown_symbols).
Local Abbreviation cache_builder_process :=
  (Worker.cache_builder_process E d lang min_len max_len phone_input
                                allow_unknown_symbols).

(** The chunk grows at its end, by the samples of a subsequence of the keys. *)
Lemma process_paths_sublist assumed_sr path_list acc chunk :
  process_paths assumed_sr path_list acc = Ok chunk →
  ∃ kept, chunk = acc ++ kept
          ∧ Worker.path <$> kept `sublist_of` path_list
          ∧ Forall (λ s, process_path assumed_sr (Worker.path s) = Ok (Some s)) kept.
Proof.
  revert acc. induction path_list as [|p rest IH]; intros acc H; simpl in H.
  - injection H as <-. exists []. by rewrite app_nil_r.
  - apply bind_Ok in H as (step & Hstep & H).
    apply IH in H as (kept & -> & Hsub & Hall).
    destruct step as [s|].
    + exists (s :: kept). rewrite <- app_assoc. split; [done|].
      pose proof Hstep as [Hpath _]%process_path_Some. split.
      * rewrite fmap_cons, Hpath. by apply sublist_skip.
      * constructor; [by rewrite Hpath|done].
    + exists kept. split; [done|]. split; [by apply sublist_cons|done].
Qed.

(** X4. A file whose sampling rate differs from the rate of the first file
    of the partition is passed over, so that all samples of the chunk a
    worker appends were read at the rate of the partition's first file. *)
Theorem chunk_has_one_sampling_rate :
  (∀ assumed_sr p wave sr,
     is_Some (Dict.get d p) → sf_read E p = Ok (wave, sr) → sr ≠ assumed_sr →
     process_path assumed_sr p = Ok None)
  ∧ (∀ first rest result_pool result_pool',
       cache_builder_process (first :: rest) result_pool = (Ok (), result_pool') →
       ∃ w0 assumed_sr chunk,
         sf_read E first = Ok (w0, assumed_sr)
         ∧ result_pool' = result_pool ++ [chunk]
         ∧ ∀ s, s ∈ chunk →
             Worker.path s ∈ first :: rest
             ∧ ∃ wave, sf_read E (Worker.path s) = Ok (wave, assumed_sr)).
Proof.
  split.
  - intros assumed_sr p wave sr [t Ht] Hread Hsr.
    unfold Worker.process_path, Worker.load_and_filter, Dict.getitem.
    rewrite Ht. simpl. case_bool_decide; [done|]. rewrite Hread.
    apply Z.eqb_neq in Hsr. by rewrite Hsr.
  - intros first rest result_pool result_pool'.
    rewrite cache_builder_process_cons.
    destruct (sf_read E first) as [[w0 sr]|e]; [|by intros [=]].
    destruct (process_paths sr (first :: rest) []) as [chunk|e] eqn:Hc;
      [|by intros [=]].
    intros [= <-]. exists w0, sr, chunk. split_and!; try done.
    intros s Hs.
    destruct (process_paths_elem E d lang min_len max_len phone_input
                allow_unknown_symbols _ _ _ _ _ Hc Hs) as [Hnil|(p & Hp & Hkeep)].
    { by apply elem_of_nil in Hnil. }
    apply process_path_Some in Hkeep as [Hpath Hd]. rewrite <- Hpath in Hp.
    split; [done|].
    destruct Hd as (t & wave & nw & _ & Hread & _). by exists wave.
Qed.

(** X5. A resampling failure raised as [ValueError] passes the sample over;
    raised as any other class it leaves the loop body. *)
Theorem resample_failure_handling
    (assumed_sr : Z) (p transcript : string) (wave : ndarray E) (e : exn) :
  Dict.get d p = Some transcript → Str.strip transcript ≠ "" →
  sf_read E p = Ok (wave, assumed_sr) → assumed_sr ≠ 0%Z →
  within (fdiv E (np_len E wave) assumed_sr) →
  resample E assumed_sr wave = Raise e →
  process_path assumed_sr p
  = if bool_decide (e = ValueError) then Ok None else Raise e.
Proof.
  intros Ht Hblank Hread Hsr Hb1 Hres.
  unfold Worker.process_path, Worker.load_and_filter, Dict.getitem.
  rewrite Ht. simpl. rewrite bool_decide_eq_false_2 by done.
  rewrite Hread, Z.eqb_refl. simpl.
  unfold Worker.truediv. apply Z.eqb_neq in Hsr. rewrite Hsr. simpl.
  apply in_bounds_within in Hb1. rewrite Hb1. simpl. rewrite Hres.
  by destruct e.
Qed.

(** What a worker does depends on its partition only. *)
Lemma cache_builder_process_frame path_list result_pool :
  cache_builder_process path_list result_pool
  = ((cache_builder_process path_list []).1,
     result_pool ++ (cache_builder_process path_list []).2).
Proof.
  unfold Worker.cache_builder_process.
  destruct (getitem path_list 0 ≫= _) as [[? sr]|e];
    [|by rewrite app_nil_r].
  destruct (process_paths sr path_list []) as [chunk|e]; simpl;
    by rewrite ?app_nil_r.
Qed.

(** X6. A worker leaves the chunks already in the pool where they are; it
    appends exactly one chunk when it ends normally and nothing when it
    ends with an exception, and its outcome and its chunk do not depend on
    what the pool holds. *)
Theorem worker_appends_one_chunk
    (path_list : list string) (result_pool : list (list (Worker.sample E))) :
  (cache_builder_process path_list result_pool).1
  = (cache_builder_process path_list []).1
  ∧ (cache_builder_process path_list result_pool).2
    = result_pool ++ (cache_builder_process path_list []).2
  ∧ length (cache_builder_process path_list []).2
    = (if is_ok (cache_builder_process path_list []).1 then 1 else 0).
Proof.
  rewrite (cache_builder_process_frame path_list result_pool). simpl.
  split_and!; try done.
  unfold Worker.cache_builder_process.
  destruct (getitem path_list 0 ≫= _) as [[? sr]|e]; [|done].
  by destruct (process_paths sr path_list []).
Qed.

(** X7. The samples of a chunk follow the order of the partition and each
    position of the partition gives at most one sample: the source paths of
    the chunk are a subsequence of the partition. *)
Theorem chunk_paths_follow_partition
    (path_list : list string) (chunk : list (Worker.sample E)) :
  (cache_builder_process path_list []).2 = [chunk] →
  Worker.path <$> chunk `sublist_of` path_list
  ∧ length chunk ≤ length path_list
  ∧ (NoDup path_list → NoDup (Worker.path <$> chunk)).
Proof.
  unfold Worker.cache_builder_process.
  destruct (getitem path_list 0 ≫= _) as [[? sr]|e]; [|by intros [=]].
  destruct (process_paths sr path_list []) as [chunk'|e] eqn:Hc; [|by intros [=]].
  simpl. intros [= ->].
  apply process_paths_sublist in Hc as (kept & -> & Hsub & _). simpl.
  split_and!; [done|..].
  - apply sublist_length in Hsub. by rewrite length_fmap in Hsub.
  - intros Hnd. by eapply sublist_NoDup.
Qed.

End chunk_facts.

Lemma chunk_has_one_sampling_rate_witness :
  Worker.process_path Demo.externals (("d.wav", "hello") :: Demo.transcripts)
    "eng" (1 # 1)%Q (15 # 1)%Q false true 16000%Z "d.wav" = Ok None.
Proof.
  refine (proj1 (chunk_has_one_sampling_rate Demo.externals
                   (("d.wav", "hello") :: Demo.transcripts) "eng"
                   (1 # 1)%Q (15 # 1)%Q false true)
            16000%Z "d.wav" (Demo.Audio 44100 "d") 44100%Z _ _ _).
  - eexists. vm_compute. reflexivity.
  - vm_compute. reflexivity.
  - discriminate.
Defined.

Lemma resample_failure_handling_witness :
  let E := Demo.externals in
  let broken : Externals :=
    Build_Externals (ndarray E) (tensor E) (num E) (sf_read E) (np_len E)
      (fdiv E) (num_le E) (λ _ _, Raise ValueError) (tensor_len E)
      (tensor_numpy E) (ShortTensor E) (Tensor E) (string_to_tensor E)
      (text_vectors_to_id_sequence E) (audio_to_codebook_indexes E)
      (indexes_to_codec_frames E) (encode_batch E) in
  Worker.process_path broken Demo.transcripts "eng" (1 # 1)%Q (15 # 1)%Q
    false true 16000%Z "a.wav" = Ok None.
Proof.
  intros E broken.
  refine (resample_failure_handling broken Demo.transcripts "eng" (1 # 1)%Q
            (15 # 1)%Q false true 16000%Z "a.wav" "hello" (Demo.Audio 48000 "a")
            ValueError _ _ _ _ _ _).
  - vm_compute. reflexivity.
  - vm_compute. discriminate.
  - vm_compute. reflexivity.
  - discriminate.
  - split; vm_compute; reflexivity.
  - reflexivity.
Defined.

Lemma chunk_paths_follow_partition_witness :
  ∃ chunk : list (Worker.sample Demo.externals),
    Worker.path <$> chunk `sublist_of` ["a.wav"; "b.wav"; "c.wav"]
    ∧ length chunk ≤ 3.
Proof.
  eexists.
  refine (let H := chunk_paths_follow_partition Demo.externals Demo.transcripts
                     "eng" (1 # 1)%Q (15 # 1)%Q false true
                     ["a.wav"; "b.wav"; "c.wav"] _ _ in
          conj (proj1 H) (proj1 (proj2 H))).
  vm_compute. reflexivity.
Defined.

(** ** The result pool *)

Section result_pool_facts.
Context (E : Externals) (R : RandomSource) (a : Dataset.args E).
Context (d : Dict.t string).

Local Abbreviation cache_builder_process :=
  (Worker.cache_builder_process E d (Dataset.lang E a)
     (Dataset.min_len_in_seconds E a) (Dataset.max_len_in_seconds E a)
     (Dataset.phone_input E a) (Dataset.allow_unknown_symbols E a)).
Local Abbreviation run_processes := (Dataset.run_processes E a d).

(** The chunks worker [i] contributes. *)
Local Abbreviation chunks_of key_splits :=
  (λ i : nat, match key_splits !! i with
              | Some key_split => (cache_builder_process key_split []).2
              | None => []
              end).

Lemma run_processes_from (key_splits : list (list string)) (order : list nat)
    (result_pool : list (list (Worker.sample E))) :
  foldl (λ result_pool i,
           match key_splits !! i with
           | Some key_split => (cache_builder_process key_split result_pool).2
           | None => result_pool
           end) result_pool order
  = result_pool ++ (order ≫= chunks_of key_splits).
Proof.
  revert result_pool. induction order as [|i order IH]; intros result_pool.
  - simpl. by rewrite app_nil_r.
  - rewrite bind_cons. cbn [foldl]. rewrite IH, app_assoc. f_equal.
    destruct (key_splits !! i) as [key_split|]; [|by rewrite app_nil_r].
    by rewrite cache_builder_process_frame.
Qed.

Lemma run_processes_bind (key_splits : list (list string)) (order : list nat) :
  run_processes key_splits order = order ≫= chunks_of key_splits.
Proof. unfold Dataset.run_processes. by rewrite run_processes_from. Qed.

Lemma concat_bind {A B} (f : A → list (list B)) (l : list A) :
  concat (l ≫= f) = l ≫= (λ x, concat (f x)).
Proof.
  induction l as [|x l IH]; [done|].
  by rewrite !bind_cons, concat_app, IH.
Qed.

(** Run in the order they were started, the workers contribute partition
    by partition. *)
Lemma chunks_of_seq (pre key_splits : list (list string)) :
  seq (length pre) (length key_splits) ≫= chunks_of (pre ++ key_splits)
  = key_splits ≫= (λ key_split, (cache_builder_process key_split []).2).
Proof.
  revert pre. induction key_splits as [|l ks IH]; intros pre; [done|].
  simpl seq. rewrite !bind_cons. f_equal.
  - by rewrite list_lookup_middle.
  - specialize (IH (pre ++ [l])). rewrite <- app_assoc in IH. simpl in IH.
    rewrite <- IH. by rewrite length_app, Nat.add_1_r.
Qed.

Lemma worker_paths_sublist path_list :
  Worker.path <$> concat (cache_builder_process path_list []).2
  `sublist_of` path_list.
Proof.
  unfold Worker.cache_builder_process.
  destruct (getitem path_list 0 ≫= _) as [[? sr]|e]; [|apply sublist_nil_l].
  destruct (Worker.process_paths _ _ _ _ _ _ _ sr path_list []) as [chunk|e] eqn:Hc;
    [|apply sublist_nil_l].
  apply process_paths_sublist in Hc as (kept & -> & Hsub & _).
  simpl. by rewrite app_nil_r.
Qed.

Lemma pooled_paths_sublist (key_splits : list (list string)) :
  Worker.path <$> concat (key_splits ≫= (λ l, (cache_builder_process l []).2))
  `sublist_of` concat key_splits.
Proof.
  induction key_splits as [|l ks IH]; [done|].
  rewrite bind_cons, concat_app, fmap_app. simpl.
  apply sublist_app; [apply worker_paths_sublist|done].
Qed.

(** X8. The order in which the workers finish decides the order of the
    chunks in the pool and nothing else: two completion orders that are
    permutations of each other pool the same samples. *)
Theorem pool_does_not_depend_on_order
    (key_splits : list (list string)) (order1 order2 : list nat) :
  order1 ≡ₚ order2 →
  Dataset.pool E (run_processes key_splits order1)
  ≡ₚ Dataset.pool E (run_processes key_splits order2).
Proof.
  intros Horder. unfold Dataset.pool.
  rewrite !run_processes_bind, !concat_bind. by rewrite Horder.
Qed.

(** When every started worker finishes once, the source paths of the pooled
    samples are, up to order, a sub-multiset of the keys handed out. *)
Lemma pooled_paths_submseteq (key_splits : list (list string)) (order : list nat) :
  order ≡ₚ seq 0 (length key_splits) →
  Worker.path <$> Dataset.pool E (run_processes key_splits order)
  ⊆+ concat key_splits.
Proof.
  intros Horder. unfold Dataset.pool.
  rewrite run_processes_bind, concat_bind, Horder, <- concat_bind.
  pose proof (chunks_of_seq [] key_splits) as Hseq.
  cbn [length app] in Hseq. rewrite Hseq.
  apply sublist_submseteq, pooled_paths_sublist.
Qed.

End result_pool_facts.

Lemma pool_does_not_depend_on_order_witness :
  let ks := [["c.wav"; "e.wav"]; ["a.wav"; "b.wav"]] in
  Dataset.pool Demo.externals
    (Dataset.run_processes Demo.externals (Demo.args false true 2)
       Demo.transcripts ks [0; 1])
  ≡ₚ Dataset.pool Demo.externals
       (Dataset.run_processes Demo.externals (Demo.args false true 2)
          Demo.transcripts ks [1; 0]).
Proof.
  intros ks.
  apply (pool_does_not_depend_on_order Demo.externals (Demo.args false true 2)
           Demo.transcripts ks [0; 1] [1; 0]).
  apply Permutation_swap.
Defined.

(** ** The coordinator *)

Lemma submseteq_NoDup {A} (l k : list A) : l ⊆+ k → NoDup k → NoDup l.
Proof.
  intros [k' Hk]%submseteq_Permutation Hnd. rewrite Hk in Hnd.
  by apply NoDup_app in Hnd as [? _].
Qed.

Lemma key_splits_length {A} (key_list : list A) (p : nat) :
  length (Split.key_splits key_list p) = p.
Proof. unfold Split.key_splits. by rewrite length_fmap, length_seq. Qed.

Lemma concat_key_splits_sublist {A} (key_list : list A) (p : nat) :
  concat (Split.key_splits key_list p) `sublist_of` key_list.
Proof.
  unfold Split.key_splits. rewrite concat_key_splits_prefix. apply sublist_take.
Qed.

Lemma concat_key_splits {A} (key_list : list A) (p : nat) :
  1 ≤ p → concat (Split.key_splits key_list p) = key_list.
Proof.
  intros Hp. unfold Split.key_splits.
  rewrite concat_key_splits_prefix, Nat.mul_comm, Nat.div_mul by lia.
  by rewrite take_ge.
Qed.

Section coordinator_facts.
Context (E : Externals) (R : RandomSource) (HR : randint_in_range R).
Implicit Types (a : Dataset.args E) (w : Dataset.world E R).

Local Abbreviation keys_of a := (Dict.keys (Dataset.transcripts_of E a)).

(** With a random source that keeps to its bounds the coordinator always
    comes back with a pooled list: it shuffles the keys, starts one process
    per split and pools what the processes left. *)
Lemma gather_inv a w :
  ∃ g key_list,
    key_list ≡ₚ keys_of a
    ∧ Dataset.gather E R a w
      = (Dataset.World E R
           (<[Dataset.files_used_file E a := Dataset.KeyListNote E (keys_of a)]>
              (Dataset.fs E R w))
           g (Dataset.scheduler E R w)
           (Dataset.trace E R w
            ++ [Dataset.FileWritten (Dataset.files_used_file E a);
                Dataset.Print "... building dataset cache ..."]
            ++ (Dataset.Start
                  <$> Split.key_splits key_list (Dataset.loading_processes E a))
            ++ [Dataset.Print "pooling results..."]),
         Ok (Dataset.pool E
               (Dataset.run_processes E a (Dataset.transcripts_of E a)
                  (Split.key_splits key_list (Dataset.loading_processes E a))
                  (Dataset.scheduler E R w (Dataset.loading_processes E a))))).
Proof using HR.
  unfold Dataset.gather.
  destruct (shuffle_loop_perm R HR (length (keys_of a) - 1)
              (Dataset.random E R w) (keys_of a)) as (g & key_list & Hsh & Hperm);
    [lia|].
  exists g, key_list. split; [done|].
  unfold Shuffle.fisher_yates_shuffle. simpl. rewrite Hsh. simpl.
  rewrite key_splits_length. unfold Dataset.print, Dataset.emit. simpl.
  by rewrite <- !app_assoc.
Qed.

(** X9. With a random source that keeps to its bounds the coordinator never
    raises, whatever happens inside the workers: exactly
    [loading_processes] processes are started and, when that number is at
    least one, the key lists they are started on, taken together, are a
    permutation of the keys of the transcript dictionary. *)
Theorem coordinator_hands_out_all_keys a w :
  ∃ w1 pooled key_splits,
    Dataset.gather E R a w = (w1, Ok pooled)
    ∧ length key_splits = Dataset.loading_processes E a
    ∧ (1 ≤ Dataset.loading_processes E a → concat key_splits ≡ₚ keys_of a)
    ∧ Dataset.trace E R w1
      = Dataset.trace E R w
        ++ [Dataset.FileWritten (Dataset.files_used_file E a);
            Dataset.Print "... building dataset cache ..."]
        ++ (Dataset.Start <$> key_splits)
        ++ [Dataset.Print "pooling results..."].
Proof using HR.
  destruct (gather_inv a w) as (g & key_list & Hperm & ->).
  eexists _, _, (Split.key_splits key_list (Dataset.loading_processes E a)).
  split_and!; [reflexivity| |intros Hp|reflexivity].
  - apply key_splits_length.
  - by rewrite concat_key_splits.
Qed.

(** X10. When the keys of the dictionary are pairwise distinct and every
    started worker finishes once, a construction that succeeds saves no
    source path twice; the saved paths are keys of the dictionary, and the
    dataset has as many items as saved paths, at most one per key. *)
Theorem corpus_has_no_duplicate_paths a w w' ds :
  Dataset.path_exists E R w (Dataset.cache_file E a) = false
  ∨ Dataset.rebuild_cache E a = true →
  NoDup (keys_of a) →
  Dataset.scheduler E R w (Dataset.loading_processes E a)
  ≡ₚ seq 0 (Dataset.loading_processes E a) →
  Dataset.init E R a w = (w', Ok ds) →
  ∃ blob,
    Dataset.torch_load E R w' (Dataset.cache_file E a) = Ok blob
    ∧ NoDup (Dataset.blob_filepaths E blob)
    ∧ Dataset.blob_filepaths E blob ⊆+ keys_of a
    ∧ Dataset.len E ds = length (Dataset.blob_filepaths E blob)
    ∧ Dataset.len E ds ≤ length (keys_of a).
Proof using HR.
  intros Hbuild Hnd Hsched Hinit. rewrite init_build in Hinit by done.
  apply build_Ok in Hinit as (w1 & pooled & Hg & Hdp & _ & _ & Hload).
  exists (Dataset.assemble E pooled). split; [done|].
  destruct (gather_inv a w) as (g & key_list & Hperm & Hg').
  rewrite Hg in Hg'. injection Hg' as _ ->.
  assert (Hsub : Worker.path <$> Dataset.pool E
                   (Dataset.run_processes E a (Dataset.transcripts_of E a)
                      (Split.key_splits key_list (Dataset.loading_processes E a))
                      (Dataset.scheduler E R w (Dataset.loading_processes E a)))
                 ⊆+ keys_of a).
  { rewrite <- Hperm.
    etrans; [apply pooled_paths_submseteq; by rewrite key_splits_length|].
    apply sublist_submseteq, concat_key_splits_sublist. }
  unfold Dataset.len. rewrite Hdp, assemble_datapoints, length_fmap.
  change (Dataset.blob_filepaths E (Dataset.assemble E ?x))
    with (Worker.path <$> x).
  split_and!; [by eapply submseteq_NoDup|done|by rewrite length_fmap|].
  apply submseteq_length in Hsub. by rewrite length_fmap in Hsub.
Qed.

End coordinator_facts.

Lemma corpus_has_no_duplicate_paths_witness :
  ∃ blob,
    Dataset.torch_load Demo.externals lcg
      (Dataset.init Demo.externals lcg (Demo.args false true 3) Demo.world0).1
      "cache/aligner_train_cache.pt" = Ok blob
    ∧ NoDup (Dataset.blob_filepaths Demo.externals blob).
Proof.
  destruct (corpus_has_no_duplicate_paths Demo.externals lcg lcg_in_range
              (Demo.args false true 3) Demo.world0
              (Dataset.init Demo.externals lcg (Demo.args false true 3)
                 Demo.world0).1
              match (Dataset.init Demo.externals lcg (Demo.args false true 3)
                       Demo.world0).2 with
              | Ok ds => ds
              | Raise _ => Dataset.Self Demo.externals [] [] "" None
              end)
    as (blob & Hload & Hnd & _).
  - left. vm_compute. reflexivity.
  - refine (bool_decide_unpack (NoDup _) _). vm_compute. exact I.
  - reflexivity.
  - vm_compute. reflexivity.
  - exists blob. split; [exact Hload|exact Hnd].
Defined.

Lemma coordinator_hands_out_all_keys_witness :
  ∃ w1 pooled key_splits,
    Dataset.gather Demo.externals lcg (Demo.args false true 3) Demo.world0
    = (w1, Ok pooled)
    ∧ length key_splits = 3
    ∧ (1 ≤ 3 → concat key_splits ≡ₚ Dict.keys Demo.transcripts).
Proof.
  destruct (coordinator_hands_out_all_keys Demo.externals lcg lcg_in_range
              (Demo.args false true 3) Demo.world0)
    as (w1 & pooled & key_splits & Hg & Hlen & Hperm & _).
  by exists w1, pooled, key_splits.
Defined.

(** ** Sizes of the partitions *)

(** X11. For [p ≥ 1] workers and [n] keys every partition has [n // p] or
    [n // p + 1] keys, exactly [n // p] when [p] divides [n]; so with at
    least as many keys as workers no partition is empty. *)
Theorem key_split_sizes {A : Type} (key_list : list A) (p i : nat) :
  1 ≤ p → i < p →
  length key_list / p ≤ length (Split.key_split key_list p i)
                      ≤ length key_list / p + 1
  ∧ (length key_list `mod` p = 0 →
     length (Split.key_split key_list p i) = length key_list / p)
  ∧ (p ≤ length key_list → Split.key_split key_list p i ≠ []).
Proof.
  intros Hp Hi. rewrite key_split_length by lia.
  pose proof (bound_step (length key_list) p i ltac:(lia)) as Hstep.
  split_and!; [lia..| |].
  - intros Hmod.
    pose proof (Nat.div_mod_eq (length key_list) p) as Hn.
    rewrite Hmod, Nat.add_0_r in Hn.
    assert (Hmul : ∀ j, j * length key_list / p = j * (length key_list / p)).
    { intros j. rewrite Hn at 1.
      replace (j * (p * (length key_list / p)))
        with (j * (length key_list / p) * p) by lia.
      by rewrite Nat.div_mul by lia. }
    rewrite !Hmul. lia.
  - intros Hle Hnil.
    assert (Hlen : length (Split.key_split key_list p i) = 0) by by rewrite Hnil.
    rewrite key_split_length in Hlen by lia.
    assert (1 ≤ length key_list / p)
      by (apply Nat.div_le_lower_bound; lia).
    lia.
Qed.

Lemma key_split_sizes_witness :
  Split.key_split [1; 2; 3; 4; 5; 6; 7] 3 2 ≠ []
  ∧ 7 / 3 ≤ length (Split.key_split [1; 2; 3; 4; 5; 6; 7] 3 2) ≤ 7 / 3 + 1.
Proof.
  pose proof (key_split_sizes [1; 2; 3; 4; 5; 6; 7] 3 2 ltac:(lia) ltac:(lia))
    as (Hsize & _ & Hne).
  split; [apply Hne; simpl; lia|exact Hsize].
Defined.

(** ** Files and failures of the constructor *)

Section constructor_facts.
Context (E : Externals) (R : RandomSource).
Implicit Types (a : Dataset.args E) (w : Dataset.world E R).

Local Abbreviation keys_of a := (Dict.keys (Dataset.transcripts_of E a)).
Local Abbreviation cache_file := (Dataset.cache_file E).
Local Abbreviation files_used_file := (Dataset.files_used_file E).
Local Abbreviation fs := (Dataset.fs E R).

(** The files after the construction branch: the note, and the cache file
    on top of it when the construction succeeds. *)
Lemma build_fs a w :
  fs (Dataset.build E R a w).1
  = <[files_used_file a := Dataset.KeyListNote E (keys_of a)]> (fs w)
  ∨ ∃ blob,
      fs (Dataset.build E R a w).1
      = <[cache_file a := Dataset.TorchBlob E blob]>
          (<[files_used_file a := Dataset.KeyListNote E (keys_of a)]> (fs w)).
Proof.
  unfold Dataset.build.
  destruct (Dataset.gather E R a w) as [w1 r] eqn:Hg.
  apply gather_world in Hg as (Hfs & _).
  destruct r as [pooled|e]; [|by left].
  case_bool_decide; simpl; rewrite Hfs; eauto.
Qed.

(** X12. Whenever the construction branch is taken, [files_used.txt] holds
    afterwards the keys of the dictionary in the dictionary's own order
    (not the shuffled one), also when the construction fails. *)
Theorem files_used_lists_all_keys a w :
  Dataset.path_exists E R w (cache_file a) = false
  ∨ Dataset.rebuild_cache E a = true →
  fs (Dataset.init E R a w).1 !! files_used_file a
  = Some (Dataset.KeyListNote E (keys_of a)).
Proof.
  intros Hbuild. rewrite init_build by done.
  destruct (build_fs a w) as [->|[blob ->]].
  - apply lookup_insert_eq.
  - rewrite lookup_insert_ne by (apply not_eq_sym, cache_file_not_files_used).
    apply lookup_insert_eq.
Qed.


Lemma run_processes_all_empty a (d : Dict.t string)
    (key_splits : list (list string)) (order : list nat) :
  Forall (.= []) key_splits →
  Dataset.run_processes E a d key_splits order = [].
Proof.
  intros Hall. rewrite run_processes_bind.
  induction order as [|i order IH]; [done|].
  rewrite bind_cons, IH, app_nil_r.
  destruct (key_splits !! i) as [key_split|] eqn:Hi; [|done].
  rewrite Forall_lookup in Hall. by rewrite (Hall _ _ Hi).
Qed.

Lemma key_splits_of_nil {A} (p : nat) :
  Forall (.= []) (Split.key_splits ([] : list A) p).
Proof.
  unfold Split.key_splits. apply Forall_fmap, Forall_true. intros i. simpl.
  unfold Split.key_split, slice. by rewrite drop_nil, take_nil.
Qed.

Lemma build_nothing_pooled a w w1 :
  Dataset.gather E R a w = (w1, Ok []) →
  ∃ w', Dataset.build E R a w = (w', Raise RuntimeError)
        ∧ fs w' !! cache_file a = fs w !! cache_file a.
Proof.
  intros Hg. unfold Dataset.build. rewrite Hg. simpl.
  eexists. split; [reflexivity|]. simpl.
  apply gather_world in Hg as (-> & _).
  apply lookup_insert_ne, cache_file_not_files_used.
Qed.

(** X14. A construction over an empty dictionary raises [RuntimeError]
    whatever the number of workers (each of them dies on its empty
    partition), and so does a construction with [loading_processes = 0],
    which starts no worker; the cache file is left as it was. *)
Theorem nothing_to_build_is_fatal a w :
  Dataset.path_exists E R w (cache_file a) = false
  ∨ Dataset.rebuild_cache E a = true →
  keys_of a = [] ∨ (Dataset.loading_processes E a = 0 ∧ randint_in_range R) →
  ∃ w', Dataset.init E R a w = (w', Raise RuntimeError)
        ∧ fs w' !! cache_file a = fs w !! cache_file a.
Proof.
  intros Hbuild Hnothing. rewrite init_build by done.
  destruct Hnothing as [Hkeys|[Hp HR]].
  - eapply build_nothing_pooled. unfold Dataset.gather. rewrite Hkeys.
    unfold Shuffle.fisher_yates_shuffle. simpl. repeat f_equal.
    unfold Dataset.pool. rewrite run_processes_all_empty; [done|].
    apply key_splits_of_nil.
  - destruct (gather_inv E R HR a w) as (g & key_list & _ & Hg).
    rewrite Hp in Hg. unfold Split.key_splits in Hg. simpl in Hg.
    rewrite run_processes_all_empty in Hg by constructor.
    by eapply build_nothing_pooled.
Qed.

Lemma build_Ok_nonempty a w w' ds :
  Dataset.build E R a w = (w', Ok ds) → 0 < Dataset.len E ds.
Proof.
  unfold Dataset.build.
  destruct (Dataset.gather E R a w) as [w1 [pooled|e]]; [|by intros [=]].
  case_bool_decide as Hlen; [by intros [=]|].
  unfold Dataset.finish, Dataset.len. intros [= <- <-]. simpl in *. lia.
Qed.

(** X15. A construction that succeeds never returns an empty dataset, and
    the tuple it saved holds three lists of the dataset's length in which
    the same index means the same file: the file named by the [i]-th saved
    path was read, and the [i]-th datapoint's speech tensor holds the codec
    indexes of that file's wave. *)
Theorem built_corpus_is_consistent a w w' ds :
  Dataset.path_exists E R w (cache_file a) = false
  ∨ Dataset.rebuild_cache E a = true →
  Dataset.init E R a w = (w', Ok ds) →
  0 < Dataset.len E ds
  ∧ ∃ blob,
      Dataset.torch_load E R w' (cache_file a) = Ok blob
      ∧ length (Dataset.blob_datapoints E blob) = Dataset.len E ds
      ∧ length (Dataset.blob_speaker_embeddings E blob) = Dataset.len E ds
      ∧ length (Dataset.blob_filepaths E blob) = Dataset.len E ds
      ∧ ∀ i p dp,
          Dataset.blob_filepaths E blob !! i = Some p →
          Dataset.blob_datapoints E blob !! i = Some dp →
          ∃ wave sr,
            sf_read E p = Ok (wave, sr)
            ∧ dp.2 = ShortTensor E (audio_to_codebook_indexes E sr wave sr).
Proof.
  intros Hbuild Hinit. rewrite init_build in Hinit by done.
  split; [by eapply build_Ok_nonempty|].
  apply build_Ok in Hinit as (w1 & pooled & Hg & Hdp & _ & _ & Hload).
  exists (Dataset.assemble E pooled). split; [done|].
  unfold Dataset.len. rewrite Hdp, assemble_datapoints, assemble_speaker_embeddings.
  change (Dataset.blob_filepaths E (Dataset.assemble E pooled))
    with (Worker.path <$> pooled).
  rewrite !length_fmap. split_and!; try done.
  intros i p dp Hp Hdpi.
  apply list_lookup_fmap_Some in Hp as (s & -> & Hs).
  rewrite list_lookup_fmap, Hs in Hdpi. injection Hdpi as <-. simpl.
  apply gather_Ok in Hg as (key_splits & order & ->).
  apply list_elem_of_lookup_2, run_processes_derived in Hs as [sr Hd].
  destruct Hd as (t & wave & nw & _ & Hread & _ & _ & _ & _ & Hspeech & _).
  exists wave, sr. by rewrite Hspeech.
Qed.

End constructor_facts.

Lemma files_used_lists_all_keys_witness :
  Dataset.fs Demo.externals lcg
    (Dataset.init Demo.externals lcg
       (Demo.args_for [("g.wav", "hello")] false true 1) Demo.world0).1
  !! "cache/files_used.txt"
  = Some (Dataset.KeyListNote Demo.externals ["g.wav"]).
Proof.
  apply (files_used_lists_all_keys Demo.externals lcg
           (Demo.args_for [("g.wav", "hello")] false true 1) Demo.world0).
  left. vm_compute. reflexivity.
Defined.


Lemma nothing_to_build_is_fatal_witness :
  (∃ w', Dataset.init Demo.externals lcg (Demo.args_for [] false true 4)
           Demo.world0 = (w', Raise RuntimeError))
  ∧ (∃ w', Dataset.init Demo.externals lcg (Demo.args false true 0)
             Demo.world0 = (w', Raise RuntimeError)).
Proof.
  split.
  - destruct (nothing_to_build_is_fatal Demo.externals lcg
                (Demo.args_for [] false true 4) Demo.world0) as (w' & Hinit & _).
    + left. vm_compute. reflexivity.
    + left. reflexivity.
    + by exists w'.
  - destruct (nothing_to_build_is_fatal Demo.externals lcg
                (Demo.args false true 0) Demo.world0) as (w' & Hinit & _).
    + left. vm_compute. reflexivity.
    + right. split; [reflexivity|exact lcg_in_range].
    + by exists w'.
Defined.

Lemma built_corpus_is_consistent_witness :
  0 < Dataset.len Demo.externals
        match (Dataset.init Demo.externals lcg (Demo.args false true 2)
                 Demo.world0).2 with
        | Ok ds => ds
        | Raise _ => Dataset.Self Demo.externals [] [] "" None
        end.
Proof.
  refine (proj1 (built_corpus_is_consistent Demo.externals lcg
                   (Demo.args false true 2) Demo.world0
                   (Dataset.init Demo.externals lcg (Demo.args false true 2)
                      Demo.world0).1 _ _ _)).
  - left. vm_compute. reflexivity.
  - vm_compute. reflexivity.
Defined.

(** ** Indexed access *)

Section index_facts.
Context {A : Type}.
Implicit Types l : list A.

Lemma getitem_int_out_of_range l (i : Z) :
  ¬ (- Z.of_nat (length l) ≤ i < Z.of_nat (length l))%Z →
  getitem_int l i = Raise IndexError.
Proof.
  intros Hi. unfold getitem_int, getitem.
  destruct (0 <=? i)%Z eqn:Hpos.
  - apply Z.leb_le in Hpos. by rewrite lookup_ge_None_2 by lia.
  - apply Z.leb_gt in Hpos.
    destruct (0 <=? Z.of_nat (length l) + i)%Z eqn:Hneg; [|done].
    apply Z.leb_le in Hneg. lia.
Qed.

Lemma getitem_int_negative l (i : Z) :
  (- Z.of_nat (length l) ≤ i < 0)%Z →
  getitem_int l i = getitem_int l (Z.of_nat (length l) + i).
Proof.
  intros Hi. unfold getitem_int.
  destruct (0 <=? i)%Z eqn:Hpos; [apply Z.leb_le in Hpos; lia|].
  destruct (0 <=? Z.of_nat (length l) + i)%Z eqn:Hneg; [done|].
  apply Z.leb_gt in Hneg. lia.
Qed.

End index_facts.

Section getitem_facts_of_dataset.
Context (E : Externals).
Implicit Types ds : Dataset.dataset E.

(** The returned tuple, whether or not the codec preprocessor existed. *)
Lemma getitem_result ds (index : Z) :
  (Dataset.getitem E ds index).2
  = (datapoint ← getitem_int (Dataset.datapoints E ds) index;
     speaker_embedding ← getitem_int (Dataset.speaker_embeddings E ds) index;
     let tokens := text_vectors_to_id_sequence E (Dataset.tf E ds) datapoint.1 in
     Ok (tokens, length tokens, indexes_to_codec_frames E datapoint.2,
         tensor_len E datapoint.2, speaker_embedding)).
Proof.
  destruct ds as [dps embs lng [sr|]]; unfold Dataset.getitem; simpl;
    by destruct (getitem_int dps index).
Qed.

(** X16. On a dataset whose two lists have the same length, [__getitem__]
    returns a tuple exactly for the indices from [-len] to [len - 1] and
    raises [IndexError] for every other index; a negative index [i] gives
    the item of index [len + i]. *)
Theorem getitem_index_range ds (index : Z) :
  length (Dataset.speaker_embeddings E ds) = Dataset.len E ds →
  let n := Z.of_nat (Dataset.len E ds) in
  (is_ok (Dataset.getitem E ds index).2 = true ↔ (- n ≤ index < n)%Z)
  ∧ (¬ (- n ≤ index < n)%Z → (Dataset.getitem E ds index).2 = Raise IndexError)
  ∧ ((- n ≤ index < 0)%Z →
     (Dataset.getitem E ds index).2 = (Dataset.getitem E ds (n + index)).2).
Proof.
  intros Hlen n. subst n. unfold Dataset.len in *.
  assert (Hout : ¬ (- Z.of_nat (length (Dataset.datapoints E ds)) ≤ index
                    < Z.of_nat (length (Dataset.datapoints E ds)))%Z →
                 (Dataset.getitem E ds index).2 = Raise IndexError).
  { intros Hi. rewrite getitem_result.
    by rewrite (getitem_int_out_of_range (Dataset.datapoints E ds)). }
  split_and!; [split| |].
  - intros Hok.
    destruct (decide (- Z.of_nat (length (Dataset.datapoints E ds)) ≤ index
                      < Z.of_nat (length (Dataset.datapoints E ds)))%Z)
      as [|Hi]; [done|].
    rewrite (Hout Hi) in Hok. discriminate Hok.
  - intros Hi. rewrite getitem_result.
    destruct (getitem_int_in_range (Dataset.datapoints E ds) index Hi) as [dp ->].
    rewrite <- Hlen in Hi.
    destruct (getitem_int_in_range (Dataset.speaker_embeddings E ds) index Hi)
      as [emb ->].
    done.
  - exact Hout.
  - intros Hi. rewrite !getitem_result.
    rewrite (getitem_int_negative (Dataset.datapoints E ds)) by done.
    rewrite <- Hlen in Hi.
    rewrite (getitem_int_negative (Dataset.speaker_embeddings E ds)) by done.
    by rewrite Hlen.
Qed.

(** X17. [__getitem__] never changes the datapoints, the embeddings or the
    frontend of the object.  Its first call creates the codec preprocessor
    with [input_sr = -1], also when the index is out of range; later calls
    leave the object as it is, and the tuple returned for an index is the
    same before and after the preprocessor was created. *)
Theorem getitem_creates_decoder_once ds (i j : Z) :
  let self := (Dataset.getitem E ds i).1 in
  Dataset.datapoints E self = Dataset.datapoints E ds
  ∧ Dataset.speaker_embeddings E self = Dataset.speaker_embeddings E ds
  ∧ Dataset.tf E self = Dataset.tf E ds
  ∧ Dataset.ap E self = Some (default (-1)%Z (Dataset.ap E ds))
  ∧ (Dataset.getitem E self j).1 = self
  ∧ (Dataset.getitem E self j).2 = (Dataset.getitem E ds j).2.
Proof.
  intros self. subst self. rewrite !getitem_result.
  by destruct ds as [dps embs lng [sr|]].
Qed.

End getitem_facts_of_dataset.

Lemma getitem_index_range_witness :
  let ds := Dataset.Self Demo.externals
              [(Demo.Ints [1]%Z, Demo.Ints [10]%Z); (Demo.Ints [2]%Z, Demo.Ints [20]%Z)]
              [Demo.Ints [100]%Z; Demo.Ints [200]%Z] "eng" None in
  (Dataset.getitem Demo.externals ds 2).2 = Raise IndexError
  ∧ (Dataset.getitem Demo.externals ds (-1)).2
    = (Dataset.getitem Demo.externals ds (2 + -1)).2.
Proof.
  intros ds.
  pose proof (getitem_index_range Demo.externals ds 2 eq_refl) as (_ & Hout & _).
  pose proof (getitem_index_range Demo.externals ds (-1) eq_refl) as (_ & _ & Hneg).
  split; [apply Hout|apply Hneg]; unfold ds, Dataset.len; simpl; lia.
Defined.
